(** * BrainBox: the streaming / decode / classification pipeline

    A shallow embedding of [Game/spikerbox.py] (the serial frame decoder,
    the replay streams and [SpikerBox.process_input]) and of
    [WaveformSnipper/main.py]'s [normalise_signal], with the properties
    the specification states about them.

    Conventions.
    - Python [int]s are [Z]; [len] is [Z.of_nat (length _)].
    - numpy [float64] samples are modelled as exact rationals [Q]; the
      only place where a non-finite float can be produced from finite
      input, the division inside [normalise_signal], returns an [npfloat].
    - a [dict] is a [gmap]; [controls[k] = v] is [<[k:=v]> controls].
    - calls to collaborators whose order matters (the stream's [update],
      the model's [predict], [print]) are recorded in an event log. *)

From Stdlib Require Import ZArith QArith Qabs Qminmax Lia Ascii String.
From stdpp Require Import base option list strings pretty gmap.

Local Open Scope Z_scope.

(** Python's [len]. *)
Definition len {A} (l : list A) : Z := Z.of_nat (length l).

(** ** The serial frame decoder: [SpikerStream.process_data] *)

Module SpikerStream.

Definition CHUNK_UNIT_TIME : Z := 20000.
Definition ARRAY_UNIT_SIZE : Z := (CHUNK_UNIT_TIME / 2) - 1.
Definition BAUDRATE : Z := 230400.

(** The [while i < len(data) - 1] loop.  [i] starts at 1 and only grows,
    so [data[i]] never counts from the end; it is a checked lookup:
    [None] stands for an [IndexError] (or for exhausted fuel), so a
    result [Some _] says that the loop ran to its end without either. *)
Fixpoint process_loop (fuel : nat) (data : list Z) (i : Z) (result : list Z)
  : option (list Z) :=
  match fuel with
  | O => None
  | S fuel =>
      if i <? len data - 1 then
        d ← data !! Z.to_nat i;
        if 127 <? d then
          let intout := Z.land d 127 * 128 in
          let i := i + 1 in
          d' ← data !! Z.to_nat i;
          let intout := intout + d' in
          process_loop fuel data (i + 1) (result ++ [intout])
        else process_loop fuel data (i + 1) result
      else Some result
  end.

(** [result = []; i = 1; while ...: ...; return result]. *)
Definition process_data (data : list Z) : option (list Z) :=
  process_loop (S (length data)) data 1 [].

(** The decoder as the specification words it: scanning left to right,
    a byte above 127 that still has a successor opens a frame and is
    consumed together with that successor; any other byte is skipped. *)
Fixpoint frames (bytes : list Z) : list Z :=
  match bytes with
  | b :: ((n :: rest) as tl) =>
      if 127 <? b then (Z.land b 127 * 128 + n) :: frames rest
      else frames tl
  | _ => []
  end.

(** The first byte of the buffer is never looked at. *)
Definition decode_frames (data : list Z) : list Z := frames (tail data).

End SpikerStream.

(** ** Python slices *)

(** How a slice bound is read against a sequence of length [n]: negative
    bounds count from the end, and every bound is clamped into [0, n]. *)
Definition slice_bound (n i : Z) : Z :=
  if i <? 0 then Z.max (i + n) 0 else Z.min i n.

(** [l[i:j]]; it never raises, whatever [i] and [j]. *)
Definition py_slice {A} (l : list A) (i j : Z) : list A :=
  let lo := slice_bound (len l) i in
  let hi := slice_bound (len l) j in
  take (Z.to_nat (hi - lo)) (drop (Z.to_nat lo) l).

(** [int(x)] of a float: truncation towards zero. *)
Definition py_int (x : Q) : Z := Z.quot (Qnum x) (Zpos (Qden x)).

(** [a < b] on floats, read on the rationals. *)
Definition Qltb (a b : Q) : bool := negb (Qle_bool b a).

(** ** Input streams *)

(** The [InputStream] interface as [SpikerBox] uses it: [update] returns
    the chunk read, the stream afterwards and the lines it printed. *)
Class InputStream (S : Type) := {
  chunk : S -> Z;
  buffer_time : S -> Q;
  update : S -> list Q * S * list string
}.

Module ArrayStream.

Record t := mk {
  array : list Q;
  chunk : Z;
  buffer_time : Q;
  pointer : Z
}.

(** [__init__], with the loaded array in place of its file name. *)
Definition init (array : list Q) (chunk : Z) : t :=
  {| array := array;
     chunk := (chunk / 2) - 1;
     buffer_time := inject_Z chunk / inject_Z 20000;
     pointer := 0 |}.

Definition update (self : t) : list Q * t * list string :=
  let array_slice := py_slice (array self) (pointer self) (pointer self + chunk self) in
  let pointer' := pointer self + chunk self in
  if len (array self) <? pointer' then
    (array_slice,
     {| array := array self; chunk := chunk self;
        buffer_time := buffer_time self; pointer := 0 |},
     ["Restarting stream..."%string])
  else
    (array_slice,
     {| array := array self; chunk := chunk self;
        buffer_time := buffer_time self; pointer := pointer' |},
     []).

(** [n] calls of [update] in a row: the chunks, the final stream and
    everything printed. *)
Fixpoint updates (n : nat) (self : t) : list (list Q) * t * list string :=
  match n with
  | O => ([], self, [])
  | S n =>
      let '(array_slice, self', out) := update self in
      let '(slices, self'', out') := updates n self' in
      (array_slice :: slices, self'', out ++ out')
  end.

End ArrayStream.

#[export] Instance ArrayStream_InputStream : InputStream ArrayStream.t := {
  chunk := ArrayStream.chunk;
  buffer_time := ArrayStream.buffer_time;
  update := ArrayStream.update
}.

Module WAVStream.

Record t := mk {
  array : list Q;
  chunk : Z;
  buffer_time : Q;
  pointer : Z
}.

(** [__init__], with the decoded frames and the frame rate of the file
    in place of its name. *)
Definition init (frames : list Q) (framerate : Z) (buffer_time : Q) : t :=
  {| array := frames;
     chunk := py_int (buffer_time * inject_Z framerate);
     buffer_time := buffer_time;
     pointer := 0 |}.

Definition update (self : t) : list Q * t * list string :=
  let array_slice := py_slice (array self) (pointer self) (pointer self + chunk self) in
  let pointer' := pointer self + chunk self in
  if len (array self) <? pointer' then
    (array_slice,
     {| array := array self; chunk := chunk self;
        buffer_time := buffer_time self; pointer := 0 |},
     ["Restarting stream..."%string])
  else
    (array_slice,
     {| array := array self; chunk := chunk self;
        buffer_time := buffer_time self; pointer := pointer' |},
     []).

End WAVStream.

#[export] Instance WAVStream_InputStream : InputStream WAVStream.t := {
  chunk := WAVStream.chunk;
  buffer_time := WAVStream.buffer_time;
  update := WAVStream.update
}.

(** ** The pipeline: [SpikerBox] *)

(** What [process_input] calls outside this repository's sources: the
    pickled model, astropy's box-kernel convolution, [catch22_all], and
    [utils.normalise_signal] (module [utils] is not among the sources). *)
Class Collaborators := {
  Model : Type;
  Kernel : Type;
  Normalised : Type;
  Features : Type;
  Box1DKernel : Z -> Kernel;
  convolve : list Q -> Kernel -> list Q;
  utils_normalise_signal : list Q -> Normalised;
  catch22_all : Normalised -> Features;
  predict : Model -> Features -> string
}.

Definition CONTROL_LEFT : string := "LEFT".
Definition CONTROL_RIGHT : string := "RIGHT".
Definition CONTROL_SHOOT : string := "SHOOT".

(** What a call of [process_input] does to the outside, in order. *)
Inductive Event `{Collaborators} :=
  | EvUpdate                    (* self.stream.update() *)
  | EvPredict (features : Features) (* self.model.predict([features]) *)
  | EvPrint (line : string).    (* print(...) *)

Module SpikerBox.
Section SpikerBox.
Context `{Co : Collaborators} {S : Type} `{St : InputStream S}.

Record t := mk {
  model : Model;
  stream : S;
  smoothing_flag : bool;
  buffer : option (list Q);
  buffer_size : Z;
  buffer_timer : Z
}.

(** [__init__], given the loaded model and the stream it constructs. *)
Definition init (buffer_time : Q) (model : Model) (stream : S)
    (smoothing_flag : bool) : t :=
  {| model := model;
     stream := stream;
     smoothing_flag := smoothing_flag;
     buffer := None;
     buffer_size := py_int (buffer_time * inject_Z SpikerStream.ARRAY_UNIT_SIZE);
     buffer_timer := 0 |}.

(** The timer gate of line 44: [buffer_timer / 1000.0 < buffer_time]. *)
Definition gated (buffer_timer : Z) (stream : S) : bool :=
  Qltb (inject_Z buffer_timer / inject_Z 1000) (buffer_time stream).

(** The slice [buffer[len(raw_data) + 1:]] of line 56. *)
Definition trim {A} (buffer raw_data : list A) : list A :=
  drop (Z.to_nat (len raw_data + 1)) buffer.

(** "Fill buffer", lines 51-57. *)
Definition fill_buffer {A} (buffer_size : Z) (buffer : option (list A))
    (raw_data : list A) : list A :=
  match buffer with
  | None => raw_data
  | Some buffer =>
      let buffer :=
        if buffer_size <? len buffer then trim buffer raw_data else buffer in
      buffer ++ raw_data
  end.

(** Lines 59-70: the label, and the call of the model if there is one. *)
Definition classify (self : t) (buffer : list Q) : string * list Event :=
  if buffer_size self <? len buffer then
    let amplitude :=
      if smoothing_flag self then
        let smooth_width := len buffer / 50 in
        convolve buffer (Box1DKernel smooth_width)
      else buffer in
    let features := catch22_all (utils_normalise_signal amplitude) in
    (predict (model self) features, [EvPredict features])
  else ("noise"%string, []).

(** Lines 73-74. *)
Definition set_controls (label : string) (controls : gmap string Z)
  : gmap string Z :=
  <[CONTROL_RIGHT := if decide (label = "right"%string) then 1 else 0]>
    (<[CONTROL_LEFT := if decide (label = "left"%string) then 1 else 0]> controls).

(** [self.buffer_timer = v]. *)
Definition set_buffer_timer (self : t) (v : Z) : t :=
  {| model := model self; stream := stream self;
     smoothing_flag := smoothing_flag self; buffer := buffer self;
     buffer_size := buffer_size self; buffer_timer := v |}.

Definition process_input (self : t) (controls : gmap string Z) (tick : Z)
  : gmap string Z * t * list Event :=
  let self := set_buffer_timer self (buffer_timer self + tick) in
  if gated (buffer_timer self) (stream self) then (controls, self, [])
  else
    let self := set_buffer_timer self 0 in
    let '(raw_data, stream', printed) := update (stream self) in
    let buffer := fill_buffer (buffer_size self) (buffer self) raw_data in
    let '(label, predicted) := classify self buffer in
    let shown := if decide (label = "noise"%string) then [] else [EvPrint label] in
    (set_controls label controls,
     {| model := model self; stream := stream';
        smoothing_flag := smoothing_flag self; buffer := Some buffer;
        buffer_size := buffer_size self; buffer_timer := buffer_timer self |},
     EvUpdate :: map EvPrint printed ++ predicted ++ shown).

(** The caller's loop: one [process_input] per frame, each with the
    controls the previous one returned. *)
Fixpoint polls (self : t) (controls : gmap string Z) (ticks : list Z)
  : gmap string Z * t * list Event :=
  match ticks with
  | [] => (controls, self, [])
  | tick :: ticks =>
      let '(controls', self', log) := process_input self controls tick in
      let '(controls'', self'', log') := polls self' controls' ticks in
      (controls'', self'', log ++ log')
  end.

(** The window after pulling the chunks of [chunks] one after the other. *)
Definition pulls {A} (buffer_size : Z) (buffer : option (list A))
    (chunks : list (list A)) : option (list A) :=
  foldl (fun buffer raw_data => Some (fill_buffer buffer_size buffer raw_data))
        buffer chunks.

Definition is_update (e : Event) : bool :=
  match e with EvUpdate => true | _ => false end.

Definition is_predict (e : Event) : bool :=
  match e with EvPredict _ => true | _ => false end.

(** How often the stream was read / the model was asked, in a log. *)
Definition count_updates (log : list Event) : nat := length (filter is_update log).
Definition count_predicts (log : list Event) : nat := length (filter is_predict log).

End SpikerBox.

Arguments t {_} S.

End SpikerBox.

(** ** Normalisation: [WaveformSnipper/main.py] *)

Module WaveformSnipper.

(** What a float division can return. *)
Inductive npfloat :=
  | Finite (q : Q)
  | Inf (negative : bool)
  | NaN.

(** numpy's [x / y] on floats: a zero divisor raises nothing, it gives
    [nan] for [0 / 0] and a signed infinity otherwise. *)
Definition np_divide (x y : Q) : npfloat :=
  if Qeq_bool y 0 then
    if Qeq_bool x 0 then NaN else Inf (negb (Qle_bool 0 x))
  else Finite (x / y).

Definition np_sum (l : list Q) : Q := foldr Qplus 0%Q l.

Definition np_mean (l : list Q) : Q := (np_sum l / inject_Z (len l))%Q.

(** [np.max]; it raises [ValueError] on an empty array: [None]. *)
Fixpoint np_max (l : list Q) : option Q :=
  match l with
  | [] => None
  | x :: l => Some (match np_max l with Some m => Qmax x m | None => x end)
  end.

Definition normalise_signal (signal : list Q) : option (list npfloat) :=
  let signal_centre := np_mean signal in
  let standardised_signal := map (fun x => x - signal_centre)%Q signal in
  signal_amplitude ← np_max (map Qabs standardised_signal);
  Some (map (fun x => np_divide x signal_amplitude) standardised_signal).

(** The divisor of the last line, when the function gets that far. *)
Definition signal_amplitude (signal : list Q) : option Q :=
  np_max (map Qabs (map (fun x => x - np_mean signal)%Q signal)).

End WaveformSnipper.

(** ** Stand-ins for the collaborators, to run the pipeline on examples *)

Module Demo.

(** A model that answers by the sign of the first feature. *)
Definition sign_label (features : list Q) : string :=
  match features with
  | x :: _ => if Qltb x 0 then "left" else if Qltb 0 x then "right" else "noise"
  | [] => "noise"
  end.

(** No smoothing, no normalisation, the window itself as its features. *)
Definition collaborators : Collaborators :=
  {| Model := unit; Kernel := Z; Normalised := list Q; Features := list Q;
     Box1DKernel := fun width => width;
     convolve := fun signal _ => signal;
     utils_normalise_signal := fun signal => signal;
     catch22_all := fun signal => signal;
     predict := fun _ => sign_label |}.

(** Six samples replayed as a WAV file of 2 frames per second: chunks of
    [int(1.5 * 2) = 3] samples, under a [buffer_size] of 2. *)
Definition wav6 : WAVStream.t :=
  WAVStream.init (map inject_Z [-3; -2; -1; 1; 2; 3]) 2 1.5.

Definition wav_box : SpikerBox.t WAVStream.t :=
  SpikerBox.init (Co := collaborators) (2 # 9999) tt wav6 false.

(** Three samples replayed from an array in chunks of [8 // 2 - 1 = 3],
    under a [buffer_size] of 3. *)
Definition array_box3 : SpikerBox.t ArrayStream.t :=
  SpikerBox.init (Co := collaborators) (3 # 9999) tt
    (ArrayStream.init (map inject_Z [1; 2; 3]) 8) true.

(** Four samples replayed from an array in chunks of [10 // 2 - 1 = 4],
    under a [buffer_size] of 1. *)
Definition array_box4 : SpikerBox.t ArrayStream.t :=
  SpikerBox.init (Co := collaborators) (1 # 9999) tt
    (ArrayStream.init (map inject_Z [1; 2; 3; 4]) 10) true.

End Demo.

(** The 25-sample array 0, 1, ..., 24 of the replay example. *)
Definition samples25 : list Q := map inject_Z (seqZ 0 25).

(** Elapsed time: the sum of a list of ticks. *)
Definition elapsed (ticks : list Z) : Z := foldr Z.add 0 ticks.

(** ** The wire format the decoder presupposes *)

(** The two bytes of a frame carrying the sample [v]: the high seven bits
    under a set top bit, then the low seven bits.  (The device builds the
    frames; this is the inverse that [process_data] undoes.) *)
Definition frame_of_sample (v : Z) : list Z := [128 + v / 128; v mod 128].

(** The scanned positions of a read buffer: all but the first and the last
    byte. *)
Definition scanned (data : list Z) : list Z := removelast (tail data).

(** ** Reading a stream several times *)

(** [n] successive [update]s of a stream: the chunks in the order read,
    the stream afterwards and every line printed. *)
Fixpoint reads {S : Type} `{InputStream S} (n : nat) (s : S)
  : list (list Q) * S * list string :=
  match n with
  | O => ([], s, [])
  | Datatypes.S n =>
      let '(raw_data, s', printed) := update s in
      let '(chunks, s'', printed') := reads n s' in
      (raw_data :: chunks, s'', printed ++ printed')
  end.

(** The same replay state seen as the other replay class. *)
Definition wav_as_array (w : WAVStream.t) : ArrayStream.t :=
  ArrayStream.mk (WAVStream.array w) (WAVStream.chunk w)
    (WAVStream.buffer_time w) (WAVStream.pointer w).

Definition array_as_wav (a : ArrayStream.t) : WAVStream.t :=
  WAVStream.mk (ArrayStream.array a) (ArrayStream.chunk a)
    (ArrayStream.buffer_time a) (ArrayStream.pointer a).

(** [self.pointer = 0]. *)
Definition rewound (a : ArrayStream.t) : ArrayStream.t :=
  ArrayStream.mk (ArrayStream.array a) (ArrayStream.chunk a)
    (ArrayStream.buffer_time a) 0.

(** ** Comparing normalised signals *)



(** ** Snippet files: [WaveformSnipper/main.py] *)

(** [l[i]] for any integer [i]: a negative index counts from the end, and
    an index outside the list raises [IndexError] ([None]). *)
Definition py_index {A} (l : list A) (i : Z) : option A :=
  let i := if i <? 0 then i + len l else i in
  if (0 <=? i) && (i <? len l) then l !! Z.to_nat i else None.

Module SnippetFiles.

(** [s.split(sep)] for a separator of one character. *)
Fixpoint str_split (sep : ascii) (s : string) : list string :=
  match s with
  | EmptyString => [EmptyString]
  | String ch rest =>
      if Ascii.eqb ch sep then EmptyString :: str_split sep rest
      else match str_split sep rest with
           | part :: parts => String ch part :: parts
           | [] => [String ch EmptyString]
           end
  end.

(** The second component of [os.path.split(p)]: what follows the last
    slash, the whole of [p] if it has none. *)
Definition path_tail (p : string) : string :=
  List.last (str_split "/" p) EmptyString.

Definition get_snippet_event (snippet_filename : string) : option string :=
  let tail := path_tail snippet_filename in
  py_index (str_split "_" tail) (-2).

(** The path [main] saves a snippet under:
    [f"{output_directory}/{tail}_{timestamp_id}_{count}.npy"]. *)
Definition snippet_path (output_directory tail timestamp_id : string) (count : Z)
  : string :=
  output_directory +:+ "/" +:+ tail +:+ "_" +:+ timestamp_id +:+ "_"
    +:+ pretty count +:+ ".npy".

(** The path of a noise snippet:
    [f"{output_directory}/Noise/{tail}_{timestamp_id}_{count}.npy"]. *)
Definition noise_path (output_directory tail timestamp_id : string) (count : Z)
  : string :=
  output_directory +:+ "/Noise/" +:+ tail +:+ "_" +:+ timestamp_id +:+ "_"
    +:+ pretty count +:+ ".npy".

(** [ch not in s]. *)
Definition lacks (ch : ascii) (s : string) : Prop :=
  ~ In ch (list_ascii_of_string s).

End SnippetFiles.

(** ** The caller: [Game/entity.py] and [Game/game.py] *)

(** How a call ends: it returns, the process exits ([sys.exit]), or a
    [KeyError] / [IndexError] escapes. *)
Inductive Outcome (A : Type) :=
  | Running (a : A)
  | Exited
  | Raised.
Arguments Running {A} a.
Arguments Exited {A}.
Arguments Raised {A}.

(** The images on disk: width and height of the sprite at a path. *)
Class Assets := { sprite_size : string -> Z * Z }.

Module Entity.

Definition PLAYER_HP : Z := 100.
Definition ENEMY_HP : Z := 1.
Definition PROJECTILE_HP : Z := 1.

Definition PLAYER_SPAWN : Z := 0.
Definition ENEMY_LEFT_SPAWN : Z := 1.
Definition ENEMY_MIDDLE_SPAWN : Z := 2.
Definition ENEMY_RIGHT_SPAWN : Z := 3.

Definition spawn_position : list (Z * Z) :=
  [(6 + 25, 132); (10, 4); (35, 4); (60, 4)].

(** An entity: its sprite (by path), the size of the sprite, its position
    (a [Vector2] of floats) and its health. *)
Record t := mk {
  sprite : string;
  collision_box : Z * Z;
  position : Q * Q;
  hp : Z
}.

Definition init `{Assets} (position : Q * Q) (sprite_path : string) (hp : Z) : t :=
  {| sprite := sprite_path;
     collision_box := sprite_size sprite_path;
     position := position;
     hp := hp |}.

Definition x (self : t) : Q := (position self).1.
Definition y (self : t) : Q := (position self).2.
Definition width (self : t) : Z := (collision_box self).1.
Definition height (self : t) : Z := (collision_box self).2.

Definition set_x (self : t) (new_value : Q) : t :=
  {| sprite := sprite self; collision_box := collision_box self;
     position := (new_value, y self); hp := hp self |}.

Definition set_y (self : t) (new_value : Q) : t :=
  {| sprite := sprite self; collision_box := collision_box self;
     position := (x self, new_value); hp := hp self |}.

(** The [hp] setter: a negative value is ignored. *)
Definition set_hp (self : t) (value : Z) : t :=
  {| sprite := sprite self; collision_box := collision_box self;
     position := position self;
     hp := if 0 <=? value then value else hp self |}.

Definition detect_collision (self other : t) : bool :=
  Qltb (x other) (x self)
  && Qltb (x self) (x other + inject_Z (width other))
  && Qltb (y other) (y self)
  && Qltb (y self) (y other + inject_Z (height other)).

(** [Vector2(p)] of a pair of integers. *)
Definition Vector2 (p : Z * Z) : Q * Q := (inject_Z p.1, inject_Z p.2).

Definition spawn_player `{Assets} : option t :=
  p ← py_index spawn_position PLAYER_SPAWN;
  Some (init (Vector2 p) "assets/player.png" PLAYER_HP).

Definition spawn_enemy `{Assets} (lane_index : Z) : option t :=
  p ← py_index spawn_position lane_index;
  Some (init (Vector2 p) "assets/enemy.png" ENEMY_HP).

(** [spawn_enemy_random], given what [random.randint(1, 3)] returned. *)
Definition spawn_enemy_random `{Assets} (lane_index : Z) : option t :=
  p ← py_index spawn_position lane_index;
  Some (init (Vector2 p) "assets/enemy.png" ENEMY_HP).

Definition spawn_projectile `{Assets} (position : Q * Q) : t :=
  init position "assets/projectile.png" PROJECTILE_HP.

End Entity.

(** What [pygame.event.get()] hands over. *)
Inductive Key := K_ESCAPE | K_LEFT | K_RIGHT | K_SPACE | K_F11 | K_F10 | K_OTHER.

Inductive PygameEvent :=
  | QUIT
  | KEYDOWN (key : Key)
  | OTHER_EVENT.

(** What one frame reads from outside: the clock tick, the two readings
    of [pygame.time.get_ticks()] in [spawn_enemy], the lane drawn by
    [random.randint(1, 3)], and the pending events. *)
Record Frame := {
  frame_tick : Z;
  frame_now : Z;
  frame_now_after : Z;
  frame_lane : Z;
  frame_events : list PygameEvent
}.

Module Game.
Section Game.
Context `{Co : Collaborators} {S : Type} `{St : InputStream S} `{As : Assets}.

Definition WIDTH : Z := 74.
Definition HEIGHT : Z := 144.
Definition PROJECTILE_OFFSET : Q * Q := (5, -6)%Q.
Definition PLAYER_LANE_OFFSET : Z := 25.
Definition ENEMY_SPAWN_TIME : Q := 3.5.
Definition ENEMY_SPEED : Q := 3e-2.
Definition PROJECTILE_SPEED : Q := 6e-2.

Record t := mk {
  controls : gmap string Z;
  player : Entity.t;
  enemies : list Entity.t;
  projectiles : list Entity.t;
  spawn_timer : Z;
  keyboard : bool;
  tick : Z;
  spikerbox : option (SpikerBox.t S)
}.

Definition set_controls (self : t) (v : gmap string Z) : t :=
  {| controls := v; player := player self; enemies := enemies self;
     projectiles := projectiles self; spawn_timer := spawn_timer self;
     keyboard := keyboard self; tick := tick self; spikerbox := spikerbox self |}.

Definition set_keyboard (self : t) (v : bool) : t :=
  {| controls := controls self; player := player self; enemies := enemies self;
     projectiles := projectiles self; spawn_timer := spawn_timer self;
     keyboard := v; tick := tick self; spikerbox := spikerbox self |}.

(** [spawn_enemy]. *)
Definition spawn_enemy (self : t) (frame : Frame) : Outcome t :=
  if Qltb ENEMY_SPAWN_TIME
       (inject_Z (frame_now frame - spawn_timer self) / inject_Z 1000) then
    match Entity.spawn_enemy_random (frame_lane frame) with
    | Some enemy =>
        Running
          {| controls := controls self; player := player self;
             enemies := enemies self ++ [enemy];
             projectiles := projectiles self;
             spawn_timer := frame_now_after frame;
             keyboard := keyboard self; tick := tick self;
             spikerbox := spikerbox self |}
    | None => Raised
    end
  else Running self.

(** The event loop of [process_input_keyboard]. *)
Fixpoint keyboard_events (self : t) (events : list PygameEvent) : Outcome t :=
  match events with
  | [] => Running self
  | QUIT :: _ => Exited
  | KEYDOWN K_ESCAPE :: _ => Exited
  | KEYDOWN K_LEFT :: events =>
      keyboard_events (set_controls self (<[CONTROL_LEFT := 1]> (controls self))) events
  | KEYDOWN K_RIGHT :: events =>
      keyboard_events (set_controls self (<[CONTROL_RIGHT := 1]> (controls self))) events
  | KEYDOWN K_SPACE :: events =>
      keyboard_events (set_controls self (<[CONTROL_SHOOT := 1]> (controls self))) events
  | KEYDOWN K_F10 :: events => keyboard_events (set_keyboard self false) events
  | _ :: events => keyboard_events self events
  end.

Definition process_input_keyboard (self : t) (frame : Frame) : Outcome t :=
  keyboard_events self (frame_events frame).

(** The event loop of [process_input_spikerbox]. *)
Fixpoint spikerbox_events (self : t) (events : list PygameEvent) : Outcome t :=
  match events with
  | [] => Running self
  | QUIT :: _ => Exited
  | KEYDOWN K_ESCAPE :: _ => Exited
  | KEYDOWN K_F10 :: events => spikerbox_events (set_keyboard self true) events
  | _ :: events => spikerbox_events self events
  end.

(** [process_input_spikerbox], called only with a [SpikerBox] at hand; the
    log of what the [SpikerBox] did comes along. *)
Definition process_input_spikerbox (self : t) (box : SpikerBox.t S) (frame : Frame)
  : Outcome (t * list Event) :=
  match spikerbox_events self (frame_events frame) with
  | Running self =>
      let '(controls', box', log) :=
        SpikerBox.process_input box (controls self) (tick self) in
      Running
        ({| controls := controls'; player := player self; enemies := enemies self;
            projectiles := projectiles self; spawn_timer := spawn_timer self;
            keyboard := keyboard self; tick := tick self;
            spikerbox := Some box' |}, log)
  | Exited => Exited
  | Raised => Raised
  end.

Definition process_input (self : t) (keyboard : bool) (frame : Frame)
  : Outcome (t * list Event) :=
  match (if keyboard then None else spikerbox self) with
  | None =>
      match process_input_keyboard self frame with
      | Running self => Running (self, [])
      | Exited => Exited
      | Raised => Raised
      end
  | Some box => process_input_spikerbox self box frame
  end.

Definition vector_add (p q : Q * Q) : Q * Q := ((p.1 + q.1)%Q, (p.2 + q.2)%Q).

Definition shoot_projectile (self : t) : Outcome t :=
  match controls self !! CONTROL_SHOOT with
  | None => Raised
  | Some shoot =>
      if shoot =? 1 then
        Running
          {| controls := <[CONTROL_SHOOT := 0]> (controls self);
             player := player self; enemies := enemies self;
             projectiles :=
               projectiles self
               ++ [Entity.spawn_projectile
                     (vector_add (Entity.position (player self)) PROJECTILE_OFFSET)];
             spawn_timer := spawn_timer self; keyboard := keyboard self;
             tick := tick self; spikerbox := spikerbox self |}
      else Running self
  end.

(** The player part of [move_entities]: the controls and the player
    afterwards. *)
Definition move_player (controls : gmap string Z) (player : Entity.t)
  : Outcome (gmap string Z * Entity.t) :=
  match controls !! CONTROL_LEFT with
  | None => Raised
  | Some go_left =>
      let '(controls, player) :=
        if go_left =? 1 then
          (<[CONTROL_LEFT := 0]> controls,
           if Qle_bool 0 (Entity.x player - inject_Z PLAYER_LANE_OFFSET)
           then Entity.set_x player (Entity.x player - inject_Z PLAYER_LANE_OFFSET)
           else player)
        else (controls, player) in
      match controls !! CONTROL_RIGHT with
      | None => Raised
      | Some go_right =>
          if go_right =? 1 then
            Running
              (<[CONTROL_RIGHT := 0]> controls,
               if Qle_bool (Entity.x player + inject_Z PLAYER_LANE_OFFSET) (inject_Z WIDTH)
               then Entity.set_x player (Entity.x player + inject_Z PLAYER_LANE_OFFSET)
               else player)
          else Running (controls, player)
      end
  end.

Definition move_entities (self : t) (delta_time : Z) : Outcome t :=
  match move_player (controls self) (player self) with
  | Running (controls', player') =>
      let enemies' :=
        map (fun enemy =>
               Entity.set_y enemy (Entity.y enemy + ENEMY_SPEED * inject_Z delta_time))
            (enemies self) in
      let enemies' :=
        filter (fun enemy => Qle_bool (Entity.y enemy) (inject_Z HEIGHT) = true) enemies' in
      let projectiles' :=
        map (fun projectile =>
               Entity.set_y projectile
                 (Entity.y projectile - PROJECTILE_SPEED * inject_Z delta_time))
            (projectiles self) in
      let projectiles' :=
        filter (fun projectile => Qle_bool 0 (Entity.y projectile) = true) projectiles' in
      Running
        {| controls := controls'; player := player'; enemies := enemies';
           projectiles := projectiles'; spawn_timer := spawn_timer self;
           keyboard := keyboard self; tick := tick self;
           spikerbox := spikerbox self |}
  | Exited => Exited
  | Raised => Raised
  end.

(** The inner loop of [handle_collision]: the projectiles against one
    enemy. *)
Fixpoint hit_enemy (enemy : Entity.t) (projectiles : list Entity.t)
  : Entity.t * list Entity.t :=
  match projectiles with
  | [] => (enemy, [])
  | projectile :: projectiles =>
      let '(enemy, projectile) :=
        if (0 <? Entity.hp projectile) && Entity.detect_collision projectile enemy then
          (Entity.set_hp enemy (Entity.hp enemy - 1),
           Entity.set_hp projectile (Entity.hp projectile - 1))
        else (enemy, projectile) in
      let '(enemy, projectiles) := hit_enemy enemy projectiles in
      (enemy, projectile :: projectiles)
  end.

(** The outer loop of [handle_collision]; [game_over] ends it at once. *)
Fixpoint collide (player : Entity.t) (enemies projectiles : list Entity.t)
  : Outcome (Entity.t * list Entity.t * list Entity.t) :=
  match enemies with
  | [] => Running (player, [], projectiles)
  | enemy :: enemies =>
      let '(enemy, projectiles) := hit_enemy enemy projectiles in
      let hit := (0 <? Entity.hp enemy) && Entity.detect_collision enemy player in
      let player' := if hit then Entity.set_hp player (Entity.hp player - 1) else player in
      let enemy' := if hit then Entity.set_hp enemy (Entity.hp enemy - 1) else enemy in
      if hit && (Entity.hp player' <=? 0) then Exited
      else
        match collide player' enemies projectiles with
        | Running (player'', enemies', projectiles') =>
            Running (player'', enemy' :: enemies', projectiles')
        | Exited => Exited
        | Raised => Raised
        end
  end.

Definition handle_collision (self : t) : Outcome t :=
  match collide (player self) (enemies self) (projectiles self) with
  | Running (player', enemies', projectiles') =>
      Running
        {| controls := controls self; player := player';
           enemies := filter (fun enemy => 0 < Entity.hp enemy) enemies';
           projectiles := filter (fun projectile => 0 < Entity.hp projectile) projectiles';
           spawn_timer := spawn_timer self; keyboard := keyboard self;
           tick := tick self; spikerbox := spikerbox self |}
  | Exited => Exited
  | Raised => Raised
  end.

Definition set_tick (self : t) (v : Z) : t :=
  {| controls := controls self; player := player self; enemies := enemies self;
     projectiles := projectiles self; spawn_timer := spawn_timer self;
     keyboard := keyboard self; tick := v; spikerbox := spikerbox self |}.

(** [update]: one frame; the log of what the [SpikerBox] did comes
    along. *)
Definition update (self : t) (frame : Frame) : Outcome (t * list Event) :=
  let self := set_tick self (frame_tick frame) in
  match spawn_enemy self frame with
  | Running self =>
      match process_input self (keyboard self) frame with
      | Running (self, log) =>
          match shoot_projectile self with
          | Running self =>
              match move_entities self (tick self) with
              | Running self =>
                  match handle_collision self with
                  | Running self => Running (self, log)
                  | Exited => Exited
                  | Raised => Raised
                  end
              | Exited => Exited
              | Raised => Raised
              end
          | Exited => Exited
          | Raised => Raised
          end
      | Exited => Exited
      | Raised => Raised
      end
  | Exited => Exited
  | Raised => Raised
  end.

(** [__init__], given the [SpikerBox] it could build, if any. *)
Definition init (keyboard : bool) (now : Z) (box : option (SpikerBox.t S))
  : option t :=
  player ← Entity.spawn_player;
  Some {| controls := {[ CONTROL_LEFT := 0; CONTROL_RIGHT := 0; CONTROL_SHOOT := 0 ]};
          player := player; enemies := []; projectiles := [];
          spawn_timer := now; keyboard := keyboard; tick := 0;
          spikerbox := box |}.

End Game.

Arguments t {_} S.

End Game.

(** ** Timestamp files: [parse_timestamps] *)

Module Timestamps.

(** [s.split(sep)] for a separator of any length above 0: [skip] counts
    the characters of a separator just found that are still to pass. *)
Fixpoint split_at (sep : string) (skip : nat) (s : string) : list string :=
  match s with
  | EmptyString => [EmptyString]
  | String ch rest =>
      match skip with
      | Datatypes.S skip => split_at sep skip rest
      | O =>
          if String.prefix sep s then
            EmptyString :: split_at sep (String.length sep - 1) rest
          else
            match split_at sep 0 rest with
            | part :: parts => String ch part :: parts
            | [] => [String ch EmptyString]
            end
      end
  end.

Definition str_split (sep s : string) : list string := split_at sep 0 s.

(** ["#" in line]. *)
Fixpoint has_char (ch : ascii) (s : string) : bool :=
  match s with
  | EmptyString => false
  | String c rest => Ascii.eqb c ch || has_char ch rest
  end.

Section Parse.
(** Python's [float] of a string: [None] for [ValueError]. *)
Variable py_float : string -> option Q.

(** The body of the loop: nothing for a line with a hash; otherwise the
    line must split into exactly two parts at [",\t"] and the second must
    read as a float. *)
Definition parse_line (line : string) : option (list (string * Q)) :=
  if has_char "#" line then Some []
  else
    match str_split (String "," (String "009" EmptyString)) line with
    | [timestamp_id; timestamp] =>
        value ← py_float timestamp;
        Some [(timestamp_id, value)]
    | _ => None
    end.

(** [parse_timestamps], given the lines of the file. *)
Fixpoint parse_timestamps (lines : list string) : option (list (string * Q)) :=
  match lines with
  | [] => Some []
  | line :: lines =>
      parsed ← parse_line line;
      timestamps ← parse_timestamps lines;
      Some (parsed ++ timestamps)
  end.

End Parse.

End Timestamps.

(** A reader of floats that knows two numerals, to run examples. *)
Definition demo_float (text : string) : option Q :=
  if String.eqb text "1.5" then Some 1.5%Q
  else if String.eqb text "12" then Some 12%Q
  else None.

(** ** Cutting snippets: the loop over the timestamps in [main] *)

Module Snipper.

(** [np.linspace(0, stop, num)]. *)
Definition linspace (stop : Q) (num : Z) : list Q :=
  if num <=? 0 then []
  else if num =? 1 then [0%Q]
  else map (fun i => (inject_Z i * (stop / inject_Z (num - 1)))%Q) (seqZ 0 num).

(** [np.argmin]: the first index of the least value; it raises
    [ValueError] on an empty array. *)
Fixpoint argmin_from (i best_i : Z) (best : Q) (l : list Q) : Z :=
  match l with
  | [] => best_i
  | x :: l =>
      if Qltb x best then argmin_from (i + 1) i x l
      else argmin_from (i + 1) best_i best l
  end.

Definition np_argmin (l : list Q) : option Z :=
  match l with
  | [] => None
  | x :: l => Some (argmin_from 1 0 x l)
  end.

(** [np.argmin(np.abs(t - v))]. *)
Definition nearest (t : list Q) (v : Q) : option Z :=
  np_argmin (map (fun x => Qabs (x - v)) t).

(** What the loop writes: an array file with its two rows, or a plot. *)
Inductive Saved :=
  | Npy (path : string) (signal_slice : list WaveformSnipper.npfloat)
        (time_slice : list Q)
  | Png (path : string).

(** The variables the loop carries along. *)
Record Run := mk {
  event_count : gmap string Z;
  noise_timestamps : list (Z * Z);
  saved : list Saved
}.

Section Recording.
(** One recording: the decoded signal, its time axis, the names of the
    output directory and of the recording, and the options. *)
Variables (signal t : list Q) (output_directory tail : string).
Variable config : option (gmap string (gmap string Q)).
Variables (default_right_proportion default_snippet_size : Q).
Variables (plot_flag noise_flag : bool).

(** [f"{output_directory}/Plots/{tail}_{timestamp_id}_{count}.png"]. *)
Definition plot_path (timestamp_id : string) (count : Z) : string :=
  output_directory +:+ "/Plots/" +:+ tail +:+ "_" +:+ timestamp_id +:+ "_"
    +:+ pretty count +:+ ".png".

(** The body of the loop over the timestamps (lines 117-159); [None] is a
    [KeyError] from the configuration or a [ValueError] from [np.argmin]
    or [np.max]. *)
Definition snippet (run : Run) (entry : string * Q) : option Run :=
  let '(timestamp_id, timestamp) := entry in
  '(right_proportion, snippet_size) ←
    match config with
    | Some config =>
        right_proportion ← (config !! timestamp_id) ≫= (.!! "right_proportion"%string);
        snippet_size ← (config !! timestamp_id) ≫= (.!! "snippet_size"%string);
        Some (right_proportion, snippet_size)
    | None => Some (default_right_proportion, default_snippet_size)
    end;
  min_time_index ← nearest t (timestamp - (1 - right_proportion) * snippet_size)%Q;
  max_time_index ← nearest t (timestamp + right_proportion * snippet_size)%Q;
  signal_slice ←
    WaveformSnipper.normalise_signal (py_slice signal min_time_index max_time_index);
  let time_slice := py_slice t min_time_index max_time_index in
  (* [np.vstack] raises [ValueError] when the two rows differ in length *)
  _ ← guard (len signal_slice = len time_slice);
  let count :=
    match event_count run !! timestamp_id with
    | None => 1
    | Some count => count + 1
    end in
  let event_count := <[timestamp_id := count]> (event_count run) in
  let written :=
    Npy (SnippetFiles.snippet_path output_directory tail timestamp_id count)
        signal_slice time_slice
    :: (if plot_flag then [Png (plot_path timestamp_id count)] else []) in
  Some {| event_count := event_count;
          noise_timestamps :=
            if noise_flag
            then noise_timestamps run ++ [(min_time_index, max_time_index)]
            else noise_timestamps run;
          saved := saved run ++ written |}.

(** The loop over the timestamps. *)
Fixpoint snippets (run : Run) (timestamps : list (string * Q)) : option Run :=
  match timestamps with
  | [] => Some run
  | entry :: timestamps =>
      run ← snippet run entry;
      snippets run timestamps
  end.

End Recording.

(** The loop as [main] enters it for a recording of frame rate
    [framerate]: [event_count = {}], [noise_timestamps = []], and the
    time axis [np.linspace(0, len(signal) / framerate, len(signal))]. *)
Definition cut (signal : list Q) (framerate : Z) (output_directory tail : string)
    (config : option (gmap string (gmap string Q)))
    (default_right_proportion default_snippet_size : Q)
    (plot_flag noise_flag : bool) (timestamps : list (string * Q)) : option Run :=
  if framerate =? 0 then None
  else
    let t := linspace (inject_Z (len signal) / inject_Z framerate) (len signal) in
    snippets signal t output_directory tail config
      default_right_proportion default_snippet_size plot_flag noise_flag
      {| event_count := ∅; noise_timestamps := []; saved := [] |} timestamps.

(** The paths of the array files written. *)
Definition npy_paths (written : list Saved) : list string :=
  omap (fun item => match item with Npy path _ _ => Some path | Png _ => None end)
       written.

(** The array files written so far are pairwise distinct, and each is
    numbered within the count of its event. *)
Definition tracked (output_directory tail : string) (run : Run) : Prop :=
  NoDup (npy_paths (saved run)) /\
  forall path, path ∈ npy_paths (saved run) ->
    exists timestamp_id count n,
      path = SnippetFiles.snippet_path output_directory tail timestamp_id count
      /\ event_count run !! timestamp_id = Some n /\ 1 <= count <= n.

(** Each item is below the one before it, starting below [bound]. *)
Fixpoint falling (bound : Q) (l : list Q) : Prop :=
  match l with
  | [] => True
  | x :: l => (x < bound)%Q /\ falling x l
  end.

End Snipper.

(** A recording of eight samples at four frames a second, cut at two
    events of the same name. *)
Definition demo_cut : option Snipper.Run :=
  Snipper.cut (map inject_Z [3; -1; 4; 1; -5; 9; 2; -6]) 4 "out" "rec" None
    (1 # 2) 1 true true [("a"%string, 1%Q); ("a"%string, 3 # 2)].

(** The three lanes of the player. *)
Definition in_lane (player : Entity.t) : Prop :=
  (Entity.x player == 6 \/ Entity.x player == 31 \/ Entity.x player == 56)%Q.

(** The controls hold the three keys the game reads. *)
Definition keys_present (controls : gmap string Z) : Prop :=
  is_Some (controls !! CONTROL_LEFT) /\
  is_Some (controls !! CONTROL_RIGHT) /\
  is_Some (controls !! CONTROL_SHOOT).

(** No flag of the controls is up. *)
Definition flags_down (controls : gmap string Z) : Prop :=
  controls !! CONTROL_LEFT <> Some 1 /\
  controls !! CONTROL_RIGHT <> Some 1 /\
  controls !! CONTROL_SHOOT <> Some 1.

(** The same entity at the same place, with no more health than
    before and none below zero unless it was. *)
Definition worn (before after : Entity.t) : Prop :=
  Entity.sprite after = Entity.sprite before /\
  Entity.collision_box after = Entity.collision_box before /\
  Entity.position after = Entity.position before /\
  Entity.hp after <= Entity.hp before /\
  (0 <= Entity.hp before -> 0 <= Entity.hp after).

(** ** A small game, to run frames on *)

Module DemoGame.

(** Every sprite is 8 by 8. *)
Definition assets : Assets := {| sprite_size := fun _ => (8, 8) |}.

(** A game played through [Demo.wav_box], started at time 0, as
    [Game.init] builds it. *)
Definition game : Game.t WAVStream.t :=
  {| Game.controls := {[ CONTROL_LEFT := 0; CONTROL_RIGHT := 0; CONTROL_SHOOT := 0 ]};
     Game.player :=
       Entity.init (H := assets) (Entity.Vector2 (31, 132)) "assets/player.png"
         Entity.PLAYER_HP;
     Game.enemies := []; Game.projectiles := [];
     Game.spawn_timer := 0; Game.keyboard := false; Game.tick := 0;
     Game.spikerbox := Some Demo.wav_box |}.

(** A frame of 1500 ms without events: the [SpikerBox] reads. *)
Definition long_frame : Frame :=
  {| frame_tick := 1500; frame_now := 1500; frame_now_after := 1500;
     frame_lane := 2; frame_events := [] |}.

(** A frame of 10 ms without events: the [SpikerBox] is gated. *)
Definition short_frame : Frame :=
  {| frame_tick := 10; frame_now := 1510; frame_now_after := 1510;
     frame_lane := 2; frame_events := [] |}.

(** The game after [long_frame]. *)
Definition after_long_frame : Game.t WAVStream.t :=
  match Game.update (Co := Demo.collaborators) (As := assets) game long_frame with
  | Running (g', _) => g'
  | _ => game
  end.

End DemoGame.

(** * Properties *)

(** ** Lengths *)

Lemma len_nonneg {A} (l : list A) : 0 <= len l.
Proof. unfold len. lia. Qed.

Lemma len_app {A} (l k : list A) : len (l ++ k) = len l + len k.
Proof. unfold len. rewrite length_app. lia. Qed.

Lemma len_drop {A} (n : nat) (l : list A) :
  len (drop n l) = Z.max 0 (len l - Z.of_nat n).
Proof. unfold len. rewrite length_drop. lia. Qed.

(** *** The loop computes [decode_frames] *)

Section Decoder.
Import SpikerStream.

Lemma frames_marker b n rest :
  127 < b -> frames (b :: n :: rest) = (Z.land b 127 * 128 + n) :: frames rest.
Proof. intros Hb. simpl. apply Z.ltb_lt in Hb. now rewrite Hb. Qed.

Lemma frames_skip b n rest :
  b <= 127 -> frames (b :: n :: rest) = frames (n :: rest).
Proof.
  intros Hb. simpl. destruct (127 <? b) eqn:E; [apply Z.ltb_lt in E; lia | done].
Qed.

Lemma frames_last b : frames [b] = [].
Proof. reflexivity. Qed.

(** Loop invariant: at index [length pre] of [pre ++ suf], with enough
    fuel, the loop appends exactly [frames suf] to what it has. *)
Lemma process_loop_frames (fuel : nat) :
  forall (pre suf result : list Z),
    (length suf < fuel)%nat ->
    process_loop fuel (pre ++ suf) (len pre) result = Some (result ++ frames suf).
Proof.
  induction fuel as [|fuel IH]; intros pre suf result Hfuel; [lia|].
  cbn [process_loop].
  assert (Hlen : len (pre ++ suf) = len pre + len suf) by apply len_app.
  destruct (Z.ltb_spec (len pre) (len (pre ++ suf) - 1)) as [Hlt|Hge].
  2:{ (* the guard fails: at most the last byte is left *)
    destruct suf as [|b [|n rest]];
      [now rewrite app_nil_r .. | unfold len in *; simpl in *; lia]. }
  destruct suf as [|b [|n rest]]; [unfold len in *; simpl in *; lia ..|].
  assert (H0 : (pre ++ b :: n :: rest) !! Z.to_nat (len pre) = Some b).
  { apply list_lookup_middle. unfold len. lia. }
  assert (H1 : (pre ++ b :: n :: rest) !! Z.to_nat (len pre + 1) = Some n).
  { replace (pre ++ b :: n :: rest) with ((pre ++ [b]) ++ n :: rest)
      by now rewrite <- app_assoc.
    apply list_lookup_middle. rewrite length_app. unfold len. simpl. lia. }
  rewrite H0. simpl.
  destruct (127 <? b) eqn:Hb.
  - rewrite H1. simpl.
    replace (len pre + 1 + 1) with (len ((pre ++ [b; n]))).
    2:{ rewrite len_app. unfold len. simpl. lia. }
    replace (pre ++ b :: n :: rest) with ((pre ++ [b; n]) ++ rest)
      by now rewrite <- app_assoc.
    rewrite IH by (simpl in Hfuel; lia).
    now rewrite <- app_assoc.
  - replace (len pre + 1) with (len (pre ++ [b])).
    2:{ rewrite len_app. unfold len. simpl. lia. }
    replace (pre ++ b :: n :: rest) with ((pre ++ [b]) ++ n :: rest)
      by now rewrite <- app_assoc.
    rewrite IH by (simpl in Hfuel |- *; lia).
    reflexivity.
Qed.

End Decoder.

(** C1.  For every byte sequence [process_data] returns (no [IndexError],
    no runaway loop) exactly the samples of the specification's decoder:
    the first byte is skipped, the last byte never opens a frame, a
    scanned byte above 127 yields the one sample
    [(byte & 0x7F) * 128 + next_byte] and is consumed with its successor,
    any other scanned byte is skipped; and [0x00, 0x81, 0x05, 0x00]
    decodes to [133]. *)
Theorem process_data_decodes :
  (forall data : list Z,
      SpikerStream.process_data data = Some (SpikerStream.decode_frames data)) /\
  (forall first b n rest,
      127 < b ->
      SpikerStream.decode_frames (first :: b :: n :: rest) =
      (Z.land b 127 * 128 + n) :: SpikerStream.frames rest) /\
  (forall first b n rest,
      b <= 127 ->
      SpikerStream.decode_frames (first :: b :: n :: rest) =
      SpikerStream.frames (n :: rest)) /\
  (forall first last, SpikerStream.decode_frames [first; last] = []) /\
  SpikerStream.process_data [0x00; 0x81; 0x05; 0x00] = Some [133].
Proof.
  split; [|split; [|split; [|split]]].
  - intros [|first rest]; [reflexivity|].
    unfold SpikerStream.process_data, SpikerStream.decode_frames.
    change (first :: rest) with ([first] ++ rest).
    change 1 with (len [first]) at 1.
    rewrite process_loop_frames; [reflexivity | simpl; lia].
  - intros first b n rest Hb. now apply frames_marker.
  - intros first b n rest Hb. now apply frames_skip.
  - reflexivity.
  - reflexivity.
Qed.

Lemma process_data_decodes_witness :
  SpikerStream.decode_frames [0; 200; 7; 9; 0] = [9223].
Proof.
  pose proof (proj1 (proj2 process_data_decodes) 0 200 7 [9; 0]) as Hm.
  rewrite Hm by lia. reflexivity.
Defined.

(** ** Replay streams *)

Section Replay.

Lemma slice_bound_in_range n i : 0 <= i <= n -> slice_bound n i = i.
Proof.
  intros Hi. unfold slice_bound.
  destruct (Z.ltb_spec i 0); lia.
Qed.

Lemma slice_bound_nonneg n i : 0 <= i -> slice_bound n i = Z.min i n.
Proof.
  intros Hi. unfold slice_bound.
  destruct (Z.ltb_spec i 0); lia.
Qed.

(** With the pointer inside the array and a non-negative chunk, the
    slice is what is left from the pointer on, cut at [chunk]. *)
Lemma py_slice_forward {A} (l : list A) (p c : Z) :
  0 <= p <= len l -> 0 <= c ->
  py_slice l p (p + c) = take (Z.to_nat c) (drop (Z.to_nat p) l).
Proof.
  intros Hp Hc. unfold py_slice. cbv zeta.
  rewrite (slice_bound_in_range (len l) p) by done.
  rewrite (slice_bound_nonneg (len l) (p + c)) by lia.
  destruct (Z.le_gt_cases (p + c) (len l)) as [Hfit|Hover].
  - f_equal. lia.
  - transitivity (drop (Z.to_nat p) l); [apply take_ge | symmetry; apply take_ge];
      rewrite length_drop; unfold len in *; lia.
Qed.

Lemma len_py_slice_forward {A} (l : list A) (p c : Z) :
  0 <= p <= len l -> 0 <= c ->
  len (py_slice l p (p + c)) = Z.min c (len l - p).
Proof.
  intros Hp Hc. rewrite py_slice_forward by done.
  unfold len in *. rewrite length_take, length_drop. lia.
Qed.

(** A slice is never longer than the distance of its bounds. *)
Lemma len_py_slice_le {A} (l : list A) (p c : Z) :
  0 <= c -> len (py_slice l p (p + c)) <= c.
Proof.
  intros Hc. unfold py_slice, len, slice_bound.
  rewrite length_take, length_drop.
  destruct (Z.ltb_spec p 0), (Z.ltb_spec (p + c) 0); lia.
Qed.

End Replay.

(** C4, as stated, fails: where fewer than [chunk] samples are left the
    slice is shorter than [chunk].  Over 25 samples with [chunk = 10]
    (constructor argument 22) the third [update] starts at pointer 20 and
    returns the 5 samples 20..24. *)
Lemma array_update_short_slice :
  let '(_, s2, _) := ArrayStream.updates 2 (ArrayStream.init samples25 22) in
  let '(array_slice, _, _) := ArrayStream.update s2 in
  ArrayStream.chunk s2 = 10 /\ ArrayStream.pointer s2 = 20 /\
  array_slice = map inject_Z [20; 21; 22; 23; 24] /\
  len array_slice <> ArrayStream.chunk s2.
Proof. vm_compute. repeat split; congruence. Qed.

(** C4, amended.  For every [ArrayStream] whose chunk is non-negative and
    whose pointer lies within the array (true at construction and kept by
    [update]), [update] returns the samples from the pointer on, at most
    [chunk] of them: exactly [chunk] when that many are left, otherwise
    the shorter remainder.  It advances the pointer by [chunk], and when
    the advanced pointer exceeds the array length it sets it to 0 and
    prints one restart notice.  The pointer never leaves the array, so no
    read starts past the end.  Over any 25-sample array with [chunk = 10],
    three [update]s leave the pointer at 0 and print exactly one notice. *)
Theorem array_update_spec :
  (forall s : ArrayStream.t,
      0 <= ArrayStream.chunk s ->
      0 <= ArrayStream.pointer s <= len (ArrayStream.array s) ->
      let '(array_slice, s', printed) := ArrayStream.update s in
      let p := ArrayStream.pointer s in
      let c := ArrayStream.chunk s in
      let n := len (ArrayStream.array s) in
      array_slice = take (Z.to_nat c) (drop (Z.to_nat p) (ArrayStream.array s)) /\
      len array_slice = Z.min c (n - p) /\
      (p + c <= n ->
         len array_slice = c /\ ArrayStream.pointer s' = p + c /\ printed = []) /\
      (n < p + c ->
         ArrayStream.pointer s' = 0 /\ printed = ["Restarting stream..."%string]) /\
      ArrayStream.array s' = ArrayStream.array s /\
      ArrayStream.chunk s' = c /\
      ArrayStream.buffer_time s' = ArrayStream.buffer_time s /\
      0 <= ArrayStream.pointer s' <= n) /\
  (forall (array : list Q) (bt : Q),
      length array = 25%nat ->
      let '(_, s', printed) :=
        ArrayStream.updates 3 (ArrayStream.mk array 10 bt 0) in
      ArrayStream.pointer s' = 0 /\ printed = ["Restarting stream..."%string]).
Proof.
  split.
  - intros [array c bt p] Hc Hp. simpl in Hc, Hp.
    unfold ArrayStream.update. cbn [ArrayStream.array ArrayStream.chunk
      ArrayStream.pointer ArrayStream.buffer_time].
    pose proof (py_slice_forward array p c Hp Hc) as Hslice.
    pose proof (len_py_slice_forward array p c Hp Hc) as Hlen.
    destruct (Z.ltb_spec (len array) (p + c)) as [Hwrap|Hfit];
      cbn [ArrayStream.array ArrayStream.chunk ArrayStream.pointer
           ArrayStream.buffer_time];
      repeat split; try done; try lia.
  - intros array bt Hlen.
    do 25 (destruct array as [|? array]; [discriminate Hlen|]).
    destruct array; [|discriminate Hlen].
    vm_compute. split; reflexivity.
Qed.

Lemma array_update_spec_witness :
  let s := ArrayStream.mk samples25 10 (1 # 2) 20 in
  let '(array_slice, s', printed) := ArrayStream.update s in
  len array_slice = 5 /\ ArrayStream.pointer s' = 0 /\
  printed = ["Restarting stream..."%string].
Proof.
  cbv zeta.
  pose proof (proj1 array_update_spec (ArrayStream.mk samples25 10 (1 # 2) 20)) as Hs.
  cbn [ArrayStream.chunk ArrayStream.pointer ArrayStream.array] in Hs.
  assert (H25 : len samples25 = 25) by reflexivity.
  rewrite H25 in Hs.
  specialize (Hs ltac:(lia) ltac:(lia)).
  destruct (ArrayStream.update _) as [[array_slice s'] printed].
  destruct Hs as (_ & Hlen & _ & Hwrap & _).
  destruct Hwrap as [Hp Hprinted]; [lia|].
  repeat split; [rewrite Hlen; reflexivity | exact Hp | exact Hprinted].
Defined.

(** ** The timer gate and the controls *)

Section Gate.
Context `{Collaborators} {S : Type} `{InputStream S}.
Implicit Types (self : SpikerBox.t S) (controls : gmap string Z) (tick : Z).

Lemma Qltb_lt (a b : Q) : Qltb a b = true <-> (a < b)%Q.
Proof.
  unfold Qltb. rewrite negb_true_iff, <- not_true_iff_false, Qle_bool_iff.
  split; [apply Qnot_le_lt | apply Qlt_not_le].
Qed.

Lemma gated_iff (timer : Z) (stream : S) :
  SpikerBox.gated timer stream = true <->
  (inject_Z timer / inject_Z 1000 < buffer_time stream)%Q.
Proof. apply Qltb_lt. Qed.

(** With a buffer time of 1.5 s the gate is a comparison with 1500 ms. *)
Lemma gated_1500 (timer : Z) (stream : S) :
  (buffer_time stream == 1.5)%Q ->
  SpikerBox.gated timer stream = true <-> timer < 1500.
Proof.
  intros Hbt. rewrite gated_iff, Hbt.
  unfold Qlt, Qdiv, Qmult, Qinv, inject_Z. simpl. lia.
Qed.

(** A gated call only moves the timer. *)
Lemma process_input_gated self controls tick :
  SpikerBox.gated (SpikerBox.buffer_timer self + tick) (SpikerBox.stream self) = true ->
  SpikerBox.process_input self controls tick =
  (controls,
   SpikerBox.set_buffer_timer self (SpikerBox.buffer_timer self + tick),
   []).
Proof. intros Hg. unfold SpikerBox.process_input. cbn. now rewrite Hg. Qed.

(** A call that passes the gate: one read of the stream, the window
    refilled, the label of the refilled window written to the controls. *)
Lemma process_input_open self controls tick :
  SpikerBox.gated (SpikerBox.buffer_timer self + tick) (SpikerBox.stream self) = false ->
  let '(raw_data, stream', printed) := update (SpikerBox.stream self) in
  let window :=
    SpikerBox.fill_buffer (SpikerBox.buffer_size self) (SpikerBox.buffer self) raw_data in
  let '(label, predicted) := SpikerBox.classify self window in
  exists shown,
    (shown = [] \/ shown = [EvPrint label]) /\
    SpikerBox.process_input self controls tick =
    (SpikerBox.set_controls label controls,
     SpikerBox.mk (SpikerBox.model self) stream'
       (SpikerBox.smoothing_flag self) (Some window)
       (SpikerBox.buffer_size self) 0,
     EvUpdate :: map EvPrint printed ++ predicted ++ shown).
Proof.
  intros Hg. unfold SpikerBox.process_input. cbn. rewrite Hg.
  destruct (update (SpikerBox.stream self)) as [[raw_data stream'] printed].
  cbv zeta.
  change (SpikerBox.classify (SpikerBox.set_buffer_timer
            (SpikerBox.set_buffer_timer self (SpikerBox.buffer_timer self + tick)) 0))
    with (SpikerBox.classify self).
  destruct (SpikerBox.classify self _) as [label predicted].
  eexists. split; [|reflexivity].
  destruct (decide (label = "noise"%string)); auto.
Qed.

(** What [classify] logs: one call of the model, or nothing. *)
Lemma classify_cases self (window : list Q) :
  (SpikerBox.buffer_size self < len window /\
   exists features,
     SpikerBox.classify self window =
     (predict (SpikerBox.model self) features, [EvPredict features])) \/
  (len window <= SpikerBox.buffer_size self /\
   SpikerBox.classify self window = ("noise"%string, [])).
Proof.
  unfold SpikerBox.classify.
  destruct (Z.ltb_spec (SpikerBox.buffer_size self) (len window)); eauto.
Qed.

Lemma count_updates_app (l k : list Event) :
  SpikerBox.count_updates (l ++ k) =
  (SpikerBox.count_updates l + SpikerBox.count_updates k)%nat.
Proof. unfold SpikerBox.count_updates. now rewrite filter_app, length_app. Qed.

Lemma count_predicts_app (l k : list Event) :
  SpikerBox.count_predicts (l ++ k) =
  (SpikerBox.count_predicts l + SpikerBox.count_predicts k)%nat.
Proof. unfold SpikerBox.count_predicts. now rewrite filter_app, length_app. Qed.

Lemma count_updates_prints (lines : list string) :
  SpikerBox.count_updates (map EvPrint lines) = 0%nat.
Proof. induction lines; [reflexivity | assumption]. Qed.

Lemma count_predicts_prints (lines : list string) :
  SpikerBox.count_predicts (map EvPrint lines) = 0%nat.
Proof. induction lines; [reflexivity | assumption]. Qed.

(** The controls after [set_controls]. *)
Lemma set_controls_left label controls :
  SpikerBox.set_controls label controls !! CONTROL_LEFT =
  Some (if decide (label = "left"%string) then 1 else 0).
Proof.
  unfold SpikerBox.set_controls.
  rewrite lookup_insert_ne by done. apply lookup_insert_eq.
Qed.

Lemma set_controls_right label controls :
  SpikerBox.set_controls label controls !! CONTROL_RIGHT =
  Some (if decide (label = "right"%string) then 1 else 0).
Proof. unfold SpikerBox.set_controls. apply lookup_insert_eq. Qed.

Lemma set_controls_other label controls (key : string) :
  key <> CONTROL_LEFT -> key <> CONTROL_RIGHT ->
  SpikerBox.set_controls label controls !! key = controls !! key.
Proof.
  intros Hl Hr. unfold SpikerBox.set_controls.
  now rewrite !lookup_insert_ne by done.
Qed.

End Gate.

(** ** Gated and open calls of [process_input] *)

Section Polling.
Context `{Collaborators} {S : Type} `{InputStream S}.
Implicit Types (self : SpikerBox.t S) (controls : gmap string Z) (tick : Z).

(** While every running total of the ticks stays below 1500 ms, a run of
    calls reads nothing and only adds the ticks to the timer. *)
Lemma polls_below_1500 (ticks : list Z) :
  forall self controls,
    (buffer_time (SpikerBox.stream self) == 1.5)%Q ->
    (forall k, (0 < k <= length ticks)%nat ->
               SpikerBox.buffer_timer self + elapsed (take k ticks) < 1500) ->
    SpikerBox.polls self controls ticks =
    (controls,
     SpikerBox.set_buffer_timer self (SpikerBox.buffer_timer self + elapsed ticks),
     []).
Proof.
  induction ticks as [|tick ticks IH]; intros self controls Hbt Hlow.
  - simpl. rewrite Z.add_0_r. now destruct self.
  - cbn [SpikerBox.polls].
    rewrite process_input_gated.
    2:{ apply gated_1500; [done|].
        specialize (Hlow 1%nat). simpl in Hlow.
        destruct ticks; simpl in Hlow; lia. }
    rewrite IH.
    + simpl. now rewrite Z.add_assoc.
    + exact Hbt.
    + intros k Hk. specialize (Hlow (Datatypes.S k)). simpl in Hlow |- *. lia.
Qed.

(** An open call reads the stream once. *)
Lemma process_input_open_log self controls tick :
  SpikerBox.gated (SpikerBox.buffer_timer self + tick) (SpikerBox.stream self) = false ->
  let '(_, self', log) := SpikerBox.process_input self controls tick in
  SpikerBox.count_updates log = 1%nat /\
  SpikerBox.buffer_timer self' = 0 /\
  SpikerBox.stream self' = (update (SpikerBox.stream self)).1.2.
Proof.
  intros Hg. pose proof (process_input_open self controls tick Hg) as Hopen.
  destruct (update (SpikerBox.stream self)) as [[raw_data stream'] printed].
  cbv zeta in Hopen.
  destruct (classify_cases self
              (SpikerBox.fill_buffer (SpikerBox.buffer_size self)
                 (SpikerBox.buffer self) raw_data))
    as [(_ & features & Hc) | (_ & Hc)];
    rewrite Hc in Hopen; destruct Hopen as (shown & Hshown & ->);
    (split; [|split; reflexivity]);
    change (EvUpdate :: ?l) with ([EvUpdate] ++ l);
    rewrite !count_updates_app, count_updates_prints;
    destruct Hshown as [-> | ->]; reflexivity.
Qed.

(** C3.  With a buffer time of 1.5 s: a call after which the ticks since
    the last pull sum to less than 1500 ms reads nothing from the stream
    (it returns the controls as they are and only moves the timer); a
    call after which they reach 1500 ms reads exactly one chunk and
    resets the timer to 0.  So, starting with the timer at 0, a run of
    calls whose running totals stay below 1500 ms reads nothing, and the
    first call that brings the total to 1500 ms reads exactly once. *)
Theorem gating_cadence self controls :
  (buffer_time (SpikerBox.stream self) == 1.5)%Q ->
  (forall tick,
      SpikerBox.buffer_timer self + tick < 1500 ->
      SpikerBox.process_input self controls tick =
      (controls,
       SpikerBox.set_buffer_timer self (SpikerBox.buffer_timer self + tick),
       [])) /\
  (forall tick,
      1500 <= SpikerBox.buffer_timer self + tick ->
      let '(_, self', log) := SpikerBox.process_input self controls tick in
      SpikerBox.count_updates log = 1%nat /\
      SpikerBox.buffer_timer self' = 0 /\
      SpikerBox.stream self' = (update (SpikerBox.stream self)).1.2) /\
  (forall ticks tick,
      SpikerBox.buffer_timer self = 0 ->
      (forall k, (0 < k <= length ticks)%nat -> elapsed (take k ticks) < 1500) ->
      1500 <= elapsed ticks + tick ->
      let '(controls1, self1, log1) := SpikerBox.polls self controls ticks in
      let '(_, self2, log2) := SpikerBox.process_input self1 controls1 tick in
      log1 = [] /\
      SpikerBox.stream self1 = SpikerBox.stream self /\
      SpikerBox.buffer self1 = SpikerBox.buffer self /\
      SpikerBox.count_updates (log1 ++ log2) = 1%nat /\
      SpikerBox.buffer_timer self2 = 0 /\
      SpikerBox.stream self2 = (update (SpikerBox.stream self)).1.2).
Proof.
  intros Hbt. split; [|split].
  - intros tick Hlow. apply process_input_gated.
    now apply gated_1500.
  - intros tick Hhigh. apply process_input_open_log.
    apply not_true_is_false. rewrite gated_1500 by done. lia.
  - intros ticks tick Hzero Hlow Hhigh.
    rewrite polls_below_1500; [|done|intros k Hk; rewrite Hzero; now apply Hlow].
    set (self1 := SpikerBox.set_buffer_timer self _).
    assert (Hg : SpikerBox.gated (SpikerBox.buffer_timer self1 + tick)
                   (SpikerBox.stream self1) = false).
    { apply not_true_is_false. rewrite gated_1500 by done.
      subst self1. simpl. lia. }
    pose proof (process_input_open_log self1 controls tick Hg) as Hopen.
    destruct (SpikerBox.process_input self1 controls tick) as [[controls2 self2] log2].
    destruct Hopen as (Hcount & Htimer & Hstream).
    repeat split; done.
Qed.

(** C10.  A call that leaves the accumulated timer, divided by 1000,
    below the stream's buffer time returns the controls it was given and
    changes nothing but the timer: nothing is read from the stream, the
    window, the model and the sizes are as before, and [LEFT] and
    [RIGHT] keep whatever an earlier call wrote. *)
Theorem gated_call_changes_nothing self controls tick :
  (inject_Z (SpikerBox.buffer_timer self + tick) / inject_Z 1000
     < buffer_time (SpikerBox.stream self))%Q ->
  let '(controls', self', log) := SpikerBox.process_input self controls tick in
  controls' = controls /\
  log = [] /\
  SpikerBox.count_updates log = 0%nat /\
  SpikerBox.stream self' = SpikerBox.stream self /\
  SpikerBox.buffer self' = SpikerBox.buffer self /\
  SpikerBox.model self' = SpikerBox.model self /\
  SpikerBox.smoothing_flag self' = SpikerBox.smoothing_flag self /\
  SpikerBox.buffer_size self' = SpikerBox.buffer_size self /\
  SpikerBox.buffer_timer self' = SpikerBox.buffer_timer self + tick /\
  controls' !! CONTROL_LEFT = controls !! CONTROL_LEFT /\
  controls' !! CONTROL_RIGHT = controls !! CONTROL_RIGHT.
Proof.
  intros Hlt. apply gated_iff in Hlt.
  rewrite process_input_gated by done.
  repeat split.
Qed.

(** C8.  [process_input] never writes [SHOOT]: whatever the call does and
    whatever the label, the returned controls hold for [SHOOT] what the
    controls passed in held. *)
Theorem shoot_untouched self controls tick :
  (SpikerBox.process_input self controls tick).1.1 !! CONTROL_SHOOT
    = controls !! CONTROL_SHOOT /\
  (forall label : string,
      SpikerBox.set_controls label controls !! CONTROL_SHOOT
        = controls !! CONTROL_SHOOT).
Proof.
  split; [|intros label; now apply set_controls_other].
  destruct (SpikerBox.gated (SpikerBox.buffer_timer self + tick)
              (SpikerBox.stream self)) eqn:Hg.
  - now rewrite process_input_gated.
  - pose proof (process_input_open self controls tick Hg) as Hopen.
    destruct (update (SpikerBox.stream self)) as [[raw_data stream'] printed].
    cbv zeta in Hopen.
    destruct (SpikerBox.classify self _) as [label predicted].
    destruct Hopen as (shown & _ & ->). simpl.
    now apply set_controls_other.
Qed.

(** C6.  The controls written for a label: [LEFT] is 1 exactly for
    "left" and 0 otherwise, [RIGHT] is 1 exactly for "right" and 0
    otherwise, so "noise" and any other label give 0 and 0, and the two
    are never both 1.  Every call that passes the gate writes the
    controls of its label, which is "noise" when the window is not
    longer than [buffer_size]. *)
Theorem label_to_controls :
  (forall (label : string) controls,
      let controls' := SpikerBox.set_controls label controls in
      (controls' !! CONTROL_LEFT = Some 1 <-> label = "left"%string) /\
      (controls' !! CONTROL_RIGHT = Some 1 <-> label = "right"%string) /\
      (label <> "left"%string -> controls' !! CONTROL_LEFT = Some 0) /\
      (label <> "right"%string -> controls' !! CONTROL_RIGHT = Some 0) /\
      ~ (controls' !! CONTROL_LEFT = Some 1 /\ controls' !! CONTROL_RIGHT = Some 1)) /\
  (forall self controls tick,
      SpikerBox.gated (SpikerBox.buffer_timer self + tick) (SpikerBox.stream self)
        = false ->
      let window :=
        SpikerBox.fill_buffer (SpikerBox.buffer_size self) (SpikerBox.buffer self)
          (update (SpikerBox.stream self)).1.1 in
      let label := (SpikerBox.classify self window).1 in
      (SpikerBox.process_input self controls tick).1.1
        = SpikerBox.set_controls label controls /\
      (len window <= SpikerBox.buffer_size self ->
       label = "noise"%string /\
       SpikerBox.set_controls label controls !! CONTROL_LEFT = Some 0 /\
       SpikerBox.set_controls label controls !! CONTROL_RIGHT = Some 0)).
Proof.
  split.
  - intros label controls controls'. subst controls'.
    rewrite set_controls_left, set_controls_right.
    destruct (decide (label = "left"%string)) as [Hl|Hl],
             (decide (label = "right"%string)) as [Hr|Hr];
      [subst; discriminate Hr | ..]; intuition congruence.
  - intros self controls tick Hg.
    pose proof (process_input_open self controls tick Hg) as Hopen.
    destruct (update (SpikerBox.stream self)) as [[raw_data stream'] printed].
    cbv zeta in Hopen |- *. cbn [fst snd].
    split.
    + destruct (SpikerBox.classify self _) as [label predicted].
      destruct Hopen as (shown & _ & ->). reflexivity.
    + intros Hshort. unfold SpikerBox.classify.
      destruct (Z.ltb_spec (SpikerBox.buffer_size self)
                  (len (SpikerBox.fill_buffer (SpikerBox.buffer_size self)
                          (SpikerBox.buffer self) raw_data))); [lia|].
      cbn [fst]. rewrite set_controls_left, set_controls_right.
      repeat split.
Qed.

End Polling.

(** ** The sliding window *)

Section Window.
Context {A : Type}.
Implicit Types (buffer raw_data window : list A) (chunks : list (list A)).

Lemma len_trim buffer raw_data :
  len (SpikerBox.trim buffer raw_data) = Z.max 0 (len buffer - len raw_data - 1).
Proof.
  unfold SpikerBox.trim. rewrite len_drop.
  pose proof (len_nonneg raw_data). lia.
Qed.

Lemma len_fill_first (B : Z) raw_data :
  len (SpikerBox.fill_buffer B None raw_data) = len raw_data.
Proof. reflexivity. Qed.

Lemma len_fill_trimmed (B : Z) buffer raw_data :
  B < len buffer ->
  len (SpikerBox.fill_buffer B (Some buffer) raw_data)
  = Z.max 0 (len buffer - len raw_data - 1) + len raw_data.
Proof.
  intros Hbig. unfold SpikerBox.fill_buffer.
  destruct (Z.ltb_spec B (len buffer)); [|lia].
  now rewrite len_app, len_trim.
Qed.

Lemma len_fill_grown (B : Z) buffer raw_data :
  len buffer <= B ->
  len (SpikerBox.fill_buffer B (Some buffer) raw_data) = len buffer + len raw_data.
Proof.
  intros Hsmall. unfold SpikerBox.fill_buffer.
  destruct (Z.ltb_spec B (len buffer)); [lia|].
  now rewrite len_app.
Qed.

Lemma pulls_cons (B : Z) (start : option (list A)) raw_data chunks :
  SpikerBox.pulls B start (raw_data :: chunks)
  = SpikerBox.pulls B (Some (SpikerBox.fill_buffer B start raw_data)) chunks.
Proof. reflexivity. Qed.

(** One pull keeps the window within [B + c] when the chunk is at most [c]
    long. *)
Lemma fill_buffer_bound (B c : Z) (start : option (list A)) raw_data :
  0 <= B -> len raw_data <= c ->
  (forall buffer, start = Some buffer -> len buffer <= B + c) ->
  len (SpikerBox.fill_buffer B start raw_data) <= B + c.
Proof.
  intros HB Hraw Hstart. pose proof (len_nonneg raw_data).
  destruct start as [buffer|]; [|rewrite len_fill_first; lia].
  specialize (Hstart buffer eq_refl).
  destruct (Z.lt_ge_cases B (len buffer)).
  - rewrite len_fill_trimmed by done. lia.
  - rewrite len_fill_grown by lia. lia.
Qed.

Lemma pulls_bound (B c : Z) chunks :
  0 <= B ->
  forall start : option (list A),
    Forall (fun raw_data => len raw_data <= c) chunks ->
    (forall buffer, start = Some buffer -> len buffer <= B + c) ->
    forall window, SpikerBox.pulls B start chunks = Some window -> len window <= B + c.
Proof.
  intros HB. induction chunks as [|raw_data chunks IH]; intros start Hall Hstart window.
  - simpl. auto.
  - rewrite pulls_cons. inversion Hall as [|? ? Hraw Hrest]; subst.
    apply IH; [done|].
    intros buffer [= <-]. now apply fill_buffer_bound.
Qed.

Lemma pulls_is_Some (B : Z) chunks (start : option (list A)) :
  SpikerBox.pulls B start chunks = None -> start = None /\ chunks = [].
Proof.
  revert start. induction chunks as [|raw_data chunks IH]; intros start.
  - simpl. auto.
  - rewrite pulls_cons. intros Hnone. destruct (IH _ Hnone) as [Hd _]. discriminate Hd.
Qed.

(** C2, amended.  Starting from no window, for every sequence of pulled
    chunks none of which is longer than [chunk_length], and a non-negative
    [buffer_size]: the window is never longer than
    [buffer_size + chunk_length], in particular before each trim; its
    length is never negative; and right after a trim it holds
    [max 0 (len window - len chunk - 1)] samples, at most
    [max 0 (buffer_size + chunk_length - len chunk - 1)], which is at most
    [buffer_size] when the pulled chunk has the full [chunk_length]. *)
Theorem window_bound (buffer_size chunk_length : Z) chunks :
  0 <= buffer_size ->
  Forall (fun raw_data => len raw_data <= chunk_length) chunks ->
  match SpikerBox.pulls buffer_size None chunks with
  | None => chunks = []
  | Some window =>
      0 <= len window <= buffer_size + chunk_length /\
      forall raw_data,
        len raw_data <= chunk_length ->
        buffer_size < len window ->
        len (SpikerBox.trim window raw_data)
          = Z.max 0 (len window - len raw_data - 1) /\
        0 <= len (SpikerBox.trim window raw_data)
          <= Z.max 0 (buffer_size + chunk_length - len raw_data - 1) /\
        (len raw_data = chunk_length ->
         len (SpikerBox.trim window raw_data) <= buffer_size)
  end.
Proof.
  intros HB Hall.
  destruct (SpikerBox.pulls buffer_size None chunks) as [window|] eqn:Hpulls.
  - assert (Hwin : len window <= buffer_size + chunk_length).
    { apply (pulls_bound buffer_size chunk_length chunks HB None Hall);
        [intros ? ?; discriminate | exact Hpulls]. }
    split; [pose proof (len_nonneg window); lia|].
    intros raw_data Hraw Hbig. rewrite len_trim. lia.
  - now apply pulls_is_Some in Hpulls as [_ ?].
Qed.

(** Pulling short chunks into a window longer than [B]: one sample less
    per pull. *)
Lemma pulls_shrink (B : Z) chunks :
  forall buffer,
    Forall (fun raw_data => len raw_data <= B) chunks ->
    B + len chunks <= len buffer ->
    exists window,
      SpikerBox.pulls B (Some buffer) chunks = Some window /\
      len window = len buffer - len chunks.
Proof.
  induction chunks as [|raw_data chunks IH]; intros buffer Hall Hroom.
  - exists buffer. split; [reflexivity | unfold len; simpl; lia].
  - inversion Hall as [|? ? Hraw Hrest]; subst.
    assert (Hn : len (raw_data :: chunks) = len chunks + 1)
      by (unfold len; simpl; lia).
    rewrite Hn in *. pose proof (len_nonneg chunks).
    assert (Hstep : len (SpikerBox.fill_buffer B (Some buffer) raw_data)
                    = len buffer - 1).
    { rewrite len_fill_trimmed by lia. pose proof (len_nonneg raw_data). lia. }
    rewrite pulls_cons.
    destruct (IH (SpikerBox.fill_buffer B (Some buffer) raw_data)) as (window & Hw & Hlen);
      [done | lia |].
    exists window. split; [exact Hw | lia].
Qed.

End Window.

(** ** Readiness of the window *)

Section Readiness.
Context `{Collaborators} {S : Type} `{InputStream S}.
Implicit Types (self : SpikerBox.t S) (controls : gmap string Z) (tick : Z).

(** The window an open call leaves behind. *)
Lemma process_input_open_buffer self controls tick :
  SpikerBox.gated (SpikerBox.buffer_timer self + tick) (SpikerBox.stream self) = false ->
  SpikerBox.buffer (SpikerBox.process_input self controls tick).1.2
  = Some (SpikerBox.fill_buffer (SpikerBox.buffer_size self) (SpikerBox.buffer self)
            (update (SpikerBox.stream self)).1.1).
Proof.
  intros Hg. pose proof (process_input_open self controls tick Hg) as Hopen.
  destruct (update (SpikerBox.stream self)) as [[raw_data stream'] printed].
  cbv zeta in Hopen.
  destruct (SpikerBox.classify self _) as [label predicted].
  destruct Hopen as (shown & _ & ->). reflexivity.
Qed.

(** C9, amended.  When the window is longer than [buffer_size] at the
    start of a pull, the pull drops the first [len(chunk) + 1] samples (all
    of them if the window has no more) and appends the chunk.  If the
    window was longer than the chunk, its length goes down by exactly 1;
    otherwise the window becomes the chunk alone.  With chunks no longer
    than [buffer_size] the window thus loses one sample per pull for as
    long as it exceeds [buffer_size]; it is not cut back in one pull. *)
Theorem pull_over_buffer_size :
  (forall (B : Z) (buffer raw_data : list Q),
      B < len buffer ->
      SpikerBox.fill_buffer B (Some buffer) raw_data
        = drop (Z.to_nat (len raw_data + 1)) buffer ++ raw_data /\
      len (SpikerBox.fill_buffer B (Some buffer) raw_data)
        = Z.max 0 (len buffer - len raw_data - 1) + len raw_data /\
      (len raw_data < len buffer ->
       len (SpikerBox.fill_buffer B (Some buffer) raw_data) = len buffer - 1) /\
      (len buffer <= len raw_data ->
       SpikerBox.fill_buffer B (Some buffer) raw_data = raw_data)) /\
  (forall self controls tick (buffer : list Q),
      SpikerBox.gated (SpikerBox.buffer_timer self + tick) (SpikerBox.stream self)
        = false ->
      SpikerBox.buffer self = Some buffer ->
      SpikerBox.buffer_size self < len buffer ->
      len (update (SpikerBox.stream self)).1.1 < len buffer ->
      exists window,
        SpikerBox.buffer (SpikerBox.process_input self controls tick).1.2 = Some window /\
        len window = len buffer - 1) /\
  (forall (B : Z) (chunks : list (list Q)) (buffer : list Q),
      Forall (fun raw_data => len raw_data <= B) chunks ->
      B + len chunks <= len buffer ->
      exists window,
        SpikerBox.pulls B (Some buffer) chunks = Some window /\
        len window = len buffer - len chunks).
Proof.
  split; [|split].
  - intros B buffer raw_data Hbig.
    pose proof (len_fill_trimmed B buffer raw_data Hbig) as Hlen.
    pose proof (len_nonneg raw_data).
    assert (Hfill : SpikerBox.fill_buffer B (Some buffer) raw_data
                    = drop (Z.to_nat (len raw_data + 1)) buffer ++ raw_data).
    { unfold SpikerBox.fill_buffer, SpikerBox.trim.
      destruct (Z.ltb_spec B (len buffer)); [reflexivity | lia]. }
    repeat split; [exact Hfill | exact Hlen | lia |].
    intros Hshort. rewrite Hfill, drop_ge; [reflexivity | unfold len in *; lia].
  - intros self controls tick buffer Hg Hbuf Hbig Hraw.
    eexists. split; [now apply process_input_open_buffer|].
    rewrite Hbuf, len_fill_trimmed by done. lia.
  - intros B chunks buffer. apply pulls_shrink.
Qed.

(** C5, amended.  On every pull the model is asked exactly when the
    window, with the pulled chunk appended, is strictly longer than
    [buffer_size]; when it holds [buffer_size] samples or fewer the model
    is not asked and the label is "noise". *)
Theorem classification_threshold self controls tick :
  SpikerBox.gated (SpikerBox.buffer_timer self + tick) (SpikerBox.stream self) = false ->
  let window :=
    SpikerBox.fill_buffer (SpikerBox.buffer_size self) (SpikerBox.buffer self)
      (update (SpikerBox.stream self)).1.1 in
  let '(controls', self', log) := SpikerBox.process_input self controls tick in
  SpikerBox.buffer self' = Some window /\
  (SpikerBox.buffer_size self < len window <-> SpikerBox.count_predicts log = 1%nat) /\
  (len window <= SpikerBox.buffer_size self <-> SpikerBox.count_predicts log = 0%nat) /\
  (len window <= SpikerBox.buffer_size self ->
   (SpikerBox.classify self window).1 = "noise"%string /\
   controls' = SpikerBox.set_controls "noise" controls).
Proof.
  intros Hg window.
  pose proof (process_input_open self controls tick Hg) as Hopen.
  subst window.
  destruct (update (SpikerBox.stream self)) as [[raw_data stream'] printed].
  cbv zeta in Hopen. cbn [fst snd].
  set (window := SpikerBox.fill_buffer _ _ raw_data) in *.
  destruct (classify_cases self window) as [(Hlen & features & Hc) | (Hlen & Hc)];
    rewrite Hc in Hopen |- *; destruct Hopen as (shown & Hshown & ->);
    (split; [reflexivity|]);
    change (EvUpdate :: ?l) with ([EvUpdate] ++ l);
    rewrite !count_predicts_app, count_predicts_prints;
    assert (Hs : SpikerBox.count_predicts shown = 0%nat)
      by (destruct Hshown as [-> | ->]; reflexivity);
    rewrite Hs; cbn.
  - repeat split; intros; try lia; try done.
  - repeat split; intros; try lia; try done.
Qed.

End Readiness.

(** ** Normalisation of a flat window *)

Section Normalisation.
Import WaveformSnipper.

Lemma np_max_upper (l : list Q) (m : Q) :
  np_max l = Some m -> forall x, In x l -> (x <= m)%Q.
Proof.
  revert m. induction l as [|y l IH]; intros m Hmax x Hin; [destruct Hin|].
  simpl in Hmax. destruct (np_max l) as [m'|] eqn:Hl.
  - injection Hmax as <-. destruct Hin as [<- | Hin].
    + apply Q.le_max_l.
    + eapply Qle_trans; [apply (IH m' eq_refl x Hin) | apply Q.le_max_r].
  - injection Hmax as <-. destruct l; [|discriminate Hl].
    destruct Hin as [<- | []]. apply Qle_refl.
Qed.

Lemma Qabs_le_zero (x a : Q) : (Qabs x <= a)%Q -> (a == 0)%Q -> (x == 0)%Q.
Proof.
  intros Hle Ha. rewrite Ha in Hle.
  apply Qabs_Qle_condition in Hle as [Hlo Hhi].
  apply Qle_antisym; [exact Hhi | exact Hlo].
Qed.

Lemma np_divide_zero_zero (x a : Q) :
  (x == 0)%Q -> (a == 0)%Q -> np_divide x a = NaN.
Proof.
  intros Hx Ha. unfold np_divide.
  apply Qeq_bool_iff in Hx, Ha. now rewrite Ha, Hx.
Qed.

(** C7.  What [normalise_signal] does on a window whose centred signal
    has maximum absolute value 0: nothing guards the division, every
    sample is divided by that 0 and comes out as [nan]. *)
Theorem normalise_flat_divides_by_zero (signal : list Q) (amplitude : Q) :
  signal_amplitude signal = Some amplitude ->
  (amplitude == 0)%Q ->
  normalise_signal signal = Some (map (fun _ => NaN) signal).
Proof.
  intros Hamp Hzero. unfold normalise_signal, signal_amplitude in *.
  rewrite Hamp. simpl. f_equal.
  rewrite map_map. apply map_ext_in. intros x Hx.
  apply np_divide_zero_zero; [|exact Hzero].
  apply (Qabs_le_zero _ amplitude); [|exact Hzero].
  apply (np_max_upper _ _ Hamp).
  apply in_map, (in_map (fun x => (x - np_mean signal)%Q)), Hx.
Qed.

End Normalisation.

Lemma normalise_flat_divides_by_zero_witness :
  WaveformSnipper.normalise_signal [0; 0; 0]%Q
  = Some [WaveformSnipper.NaN; WaveformSnipper.NaN; WaveformSnipper.NaN].
Proof.
  apply (normalise_flat_divides_by_zero [0; 0; 0]%Q (0 # 3)); reflexivity.
Defined.

(** ** The pipeline run on small streams *)

Section Examples.
Local Existing Instance Demo.collaborators.

(** Evaluate a call of [process_input] and name its three results. *)
Ltac run_call call controls' self' log :=
  let E := fresh "E" in
  destruct call as [[controls' self'] log] eqn:E;
  vm_compute in E; injection E as <- <- <-.

(** C5, as stated, fails at a window of exactly [buffer_size] samples:
    the first pull of [Demo.array_box3] leaves 3 samples under a
    [buffer_size] of 3, the model is not asked and [RIGHT] stays 0, though
    the model would have answered "right" for this window. *)
Lemma window_of_buffer_size_not_classified :
  let '(controls', self', log) := SpikerBox.process_input Demo.array_box3 ∅ 1 in
  SpikerBox.buffer_size self' = 3 /\
  SpikerBox.buffer self' = Some (map inject_Z [1; 2; 3]) /\
  log = [EvUpdate] /\
  SpikerBox.count_predicts log = 0%nat /\
  controls' !! CONTROL_RIGHT = Some 0 /\
  predict (SpikerBox.model self')
    (catch22_all (utils_normalise_signal (map inject_Z [1; 2; 3]))) = "right"%string /\
  ~ (SpikerBox.buffer_size self' <= len (map inject_Z [1; 2; 3]) ->
     SpikerBox.count_predicts log = 1%nat).
Proof.
  run_call (SpikerBox.process_input Demo.array_box3 ∅ 1) controls' self' log.
  repeat split. intros Himp. discriminate Himp. vm_compute. discriminate.
Qed.

(** C9, as stated, fails when the window is not longer than the chunk:
    [Demo.wav_box] holds 3 samples after its first pull, more than its
    [buffer_size] of 2; the second pull drops all of them, appends its 3
    samples, and the window is 3 samples long again, not 2. *)
Lemma window_replaced_not_shrunk :
  let '(controls1, self1, _) := SpikerBox.process_input Demo.wav_box ∅ 1500 in
  let '(_, self2, _) := SpikerBox.process_input self1 controls1 1500 in
  SpikerBox.buffer_size self1 = 2 /\
  SpikerBox.buffer self1 = Some (map inject_Z [-3; -2; -1]) /\
  SpikerBox.buffer self2 = Some (map inject_Z [1; 2; 3]) /\
  len (map inject_Z [1; 2; 3]) <> len (map inject_Z [-3; -2; -1]) - 1.
Proof.
  run_call (SpikerBox.process_input Demo.wav_box ∅ 1500) controls1 self1 log1.
  match goal with |- context [SpikerBox.process_input ?s ?c 1500] =>
    run_call (SpikerBox.process_input s c 1500) controls2 self2 log2 end.
  repeat split. vm_compute. discriminate.
Qed.

(** C2, as stated, fails when a chunk is shorter than [chunk_length]:
    [Demo.array_box4] (chunks of up to 4 samples, [buffer_size] 1) holds 4
    samples after its first pull; its second pull reads the empty rest of
    the array, so the trim drops one sample and leaves 3, more than
    [buffer_size]. *)
Lemma trim_leaves_more_than_buffer_size :
  let '(controls1, self1, _) := SpikerBox.process_input Demo.array_box4 ∅ 1 in
  let '(raw_data, _, printed) := update (SpikerBox.stream self1) in
  let '(_, self2, _) := SpikerBox.process_input self1 controls1 1 in
  SpikerBox.buffer_size self1 = 1 /\
  chunk (SpikerBox.stream self1) = 4 /\
  SpikerBox.buffer self1 = Some (map inject_Z [1; 2; 3; 4]) /\
  raw_data = [] /\
  printed = ["Restarting stream..."%string] /\
  SpikerBox.trim (map inject_Z [1; 2; 3; 4]) raw_data = map inject_Z [2; 3; 4] /\
  SpikerBox.buffer self2 = Some (map inject_Z [2; 3; 4]) /\
  ~ len (SpikerBox.trim (map inject_Z [1; 2; 3; 4]) raw_data)
      <= SpikerBox.buffer_size self1.
Proof.
  run_call (SpikerBox.process_input Demo.array_box4 ∅ 1) controls1 self1 log1.
  match goal with |- context [update ?s] =>
    let E := fresh "E" in
    destruct (update s) as [[raw_data stream'] printed] eqn:E;
    vm_compute in E; injection E as <- <- <- end.
  match goal with |- context [SpikerBox.process_input ?s ?c 1] =>
    run_call (SpikerBox.process_input s c 1) controls2 self2 log2 end.
  repeat split. vm_compute. intros Hle. apply Hle. reflexivity.
Qed.

Lemma gating_cadence_witness :
  SpikerBox.process_input Demo.wav_box ∅ 700
    = (∅, SpikerBox.set_buffer_timer Demo.wav_box 700, []) /\
  SpikerBox.count_updates (SpikerBox.process_input Demo.wav_box ∅ 1500).2 = 1%nat /\
  SpikerBox.buffer_timer (SpikerBox.process_input Demo.wav_box ∅ 1500).1.2 = 0.
Proof.
  assert (Hbt : (buffer_time (SpikerBox.stream Demo.wav_box) == 1.5)%Q) by reflexivity.
  destruct (gating_cadence Demo.wav_box ∅ Hbt) as (Hlow & Hhigh & _).
  split.
  - apply (Hlow 700). reflexivity.
  - assert (Hreach : 1500 <= SpikerBox.buffer_timer Demo.wav_box + 1500)
      by (vm_compute; discriminate).
    specialize (Hhigh 1500 Hreach).
    destruct (SpikerBox.process_input Demo.wav_box ∅ 1500) as [[controls' self'] log].
    destruct Hhigh as (Hcount & Htimer & _). split; assumption.
Defined.

Lemma gated_call_changes_nothing_witness :
  (SpikerBox.process_input Demo.wav_box {[ CONTROL_LEFT := 1 ]} 700).1.1
    !! CONTROL_LEFT = Some 1 /\
  (SpikerBox.process_input Demo.wav_box {[ CONTROL_LEFT := 1 ]} 700).2 = [].
Proof.
  assert (Hlt : (inject_Z (SpikerBox.buffer_timer Demo.wav_box + 700) / inject_Z 1000
                 < buffer_time (SpikerBox.stream Demo.wav_box))%Q) by reflexivity.
  pose proof (gated_call_changes_nothing Demo.wav_box {[ CONTROL_LEFT := 1 ]} 700 Hlt)
    as Hsame.
  destruct (SpikerBox.process_input Demo.wav_box {[ CONTROL_LEFT := 1 ]} 700)
    as [[controls' self'] log].
  destruct Hsame as (-> & -> & _). split; reflexivity.
Defined.

Lemma label_to_controls_witness :
  (SpikerBox.process_input Demo.wav_box ∅ 1500).1.1
  = SpikerBox.set_controls "left" ∅.
Proof.
  assert (Hg : SpikerBox.gated (SpikerBox.buffer_timer Demo.wav_box + 1500)
                 (SpikerBox.stream Demo.wav_box) = false) by reflexivity.
  destruct (proj2 label_to_controls Demo.wav_box ∅ 1500 Hg) as [Hcontrols _].
  rewrite Hcontrols. reflexivity.
Defined.

Lemma classification_threshold_witness :
  SpikerBox.count_predicts (SpikerBox.process_input Demo.wav_box ∅ 1500).2 = 1%nat.
Proof.
  assert (Hg : SpikerBox.gated (SpikerBox.buffer_timer Demo.wav_box + 1500)
                 (SpikerBox.stream Demo.wav_box) = false) by reflexivity.
  pose proof (classification_threshold Demo.wav_box ∅ 1500 Hg) as Hth.
  cbv zeta in Hth.
  destruct (SpikerBox.process_input Demo.wav_box ∅ 1500) as [[controls' self'] log].
  destruct Hth as (_ & Hiff & _). apply Hiff. reflexivity.
Defined.

Lemma pull_over_buffer_size_witness :
  len (SpikerBox.fill_buffer 2 (Some (map inject_Z [1; 2; 3; 4])) (map inject_Z [5; 6]))
  = 3.
Proof.
  assert (Hbig : 2 < len (map inject_Z [1; 2; 3; 4])) by reflexivity.
  destruct (proj1 pull_over_buffer_size 2 (map inject_Z [1; 2; 3; 4])
              (map inject_Z [5; 6]) Hbig) as (_ & _ & Hone & _).
  rewrite Hone; reflexivity.
Defined.

Lemma window_bound_witness :
  exists window : list Z,
    SpikerBox.pulls 2 None [[1; 2; 3]; [4; 5; 6]] = Some window /\
    0 <= len window <= 2 + 3.
Proof.
  assert (HB : 0 <= 2) by discriminate.
  assert (Hall : Forall (fun raw_data : list Z => len raw_data <= 3)
                   [[1; 2; 3]; [4; 5; 6]])
    by (repeat constructor; discriminate).
  pose proof (window_bound 2 3 [[1; 2; 3]; [4; 5; 6]] HB Hall) as Hw.
  destruct (SpikerBox.pulls 2 None [[1; 2; 3]; [4; 5; 6]]) as [window|].
  - exists window. split; [reflexivity | exact (proj1 Hw)].
  - discriminate Hw.
Defined.

End Examples.

(** * Further properties of the decoder *)

Section DecoderFacts.
Import SpikerStream.

(** Induction along the scan: nothing left, the last byte, a frame, a
    skipped byte. *)
Lemma frames_scan_ind (P : list Z -> Prop) :
  P [] ->
  (forall b, P [b]) ->
  (forall b n rest, 127 < b -> P rest -> P (b :: n :: rest)) ->
  (forall b n rest, b <= 127 -> P (n :: rest) -> P (b :: n :: rest)) ->
  forall bytes, P bytes.
Proof.
  intros Hnil Hone Hframe Hskip bytes.
  assert (Hstrong : forall k (l : list Z), (length l <= k)%nat -> P l).
  { induction k as [|k IH]; intros l Hk.
    - destruct l; [exact Hnil | simpl in Hk; lia].
    - destruct l as [|b [|n rest]]; [exact Hnil | apply Hone |].
      destruct (Z.lt_ge_cases 127 b) as [Hb|Hb].
      + apply Hframe; [exact Hb | apply IH; simpl in Hk; lia].
      + apply Hskip; [lia | apply IH; simpl in Hk |- *; lia]. }
  apply (Hstrong (length bytes)). lia.
Qed.

Lemma process_data_frames (data : list Z) :
  process_data data = Some (frames (tail data)).
Proof.
  destruct data as [|first rest]; [reflexivity|].
  unfold process_data.
  change (first :: rest) with ([first] ++ rest).
  change 1 with (len [first]) at 1.
  rewrite process_loop_frames; [reflexivity | simpl; lia].
Qed.

(** Every sample takes two bytes of the buffer. *)
Lemma frames_length (bytes : list Z) : 2 * len (frames bytes) <= len bytes.
Proof.
  induction bytes as [| b | b n rest Hb IH | b n rest Hb IH] using frames_scan_ind.
  - reflexivity.
  - unfold len. simpl. lia.
  - rewrite frames_marker by done. unfold len in *. simpl length. lia.
  - rewrite frames_skip by done. unfold len in *. simpl length in *. lia.
Qed.

(** No sample comes out exactly when no byte before the last exceeds 127. *)
Lemma frames_nil_iff (bytes : list Z) :
  frames bytes = [] <-> Forall (fun b => b <= 127) (removelast bytes).
Proof.
  induction bytes as [| b | b n rest Hb IH | b n rest Hb IH] using frames_scan_ind.
  - split; [constructor | reflexivity].
  - split; [constructor | reflexivity].
  - rewrite frames_marker by done. split; [discriminate|].
    intros Hall. simpl in Hall. inversion Hall; subst. lia.
  - rewrite frames_skip by done. rewrite IH.
    change (removelast (b :: n :: rest)) with (b :: removelast (n :: rest)).
    split; [now constructor | now inversion 1].
Qed.

(** Bytes up to 127 ahead of a frame are skipped. *)
Lemma frames_skip_prefix (garbage bytes : list Z) :
  Forall (fun b => b <= 127) garbage ->
  frames (garbage ++ bytes) = frames bytes.
Proof.
  induction 1 as [|b garbage Hb Hall IH]; [reflexivity|].
  destruct (garbage ++ bytes) as [|n rest] eqn:Happ.
  - apply app_eq_nil in Happ as [-> ->]. reflexivity.
  - simpl app. rewrite Happ, frames_skip by done. exact IH.
Qed.

Lemma land_127_bounds (b : Z) : 0 <= Z.land b 127 <= 127.
Proof.
  change 127 with (Z.ones 7) at 1 2.
  rewrite Z.land_ones by lia.
  pose proof (Z.mod_pos_bound b (2 ^ 7) ltac:(lia)). change (2 ^ 7) with 128 in *. lia.
Qed.

Lemma frames_range (bytes : list Z) :
  Forall (fun b => 0 <= b <= 255) bytes ->
  Forall (fun sample => 0 <= sample <= 16511) (frames bytes).
Proof.
  induction bytes as [| b | b n rest Hb IH | b n rest Hb IH] using frames_scan_ind;
    intros Hall.
  - constructor.
  - constructor.
  - rewrite frames_marker by done.
    inversion Hall as [|? ? _ Hall']; subst.
    inversion Hall' as [|? ? Hn Hrest]; subst.
    constructor; [|now apply IH].
    pose proof (land_127_bounds b). lia.
  - rewrite frames_skip by done. apply IH. now inversion Hall.
Qed.

Lemma frames_of_samples (samples : list Z) (rest : list Z) :
  Forall (fun v => 0 <= v < 16384) samples ->
  frames (concat (map frame_of_sample samples) ++ rest) = samples ++ frames rest.
Proof.
  induction 1 as [|v samples Hv Hall IH]; [reflexivity|].
  simpl. destruct (Z.ltb_spec 127 (128 + v / 128)) as [_|Hlow].
  2:{ pose proof (Z.div_pos v 128 ltac:(lia) ltac:(lia)). lia. }
  f_equal; [|exact IH].
  assert (Hhigh : Z.land (128 + v / 128) 127 = v / 128).
  { change 127 with (Z.ones 7). rewrite Z.land_ones by lia.
    change (2 ^ 7) with 128.
    assert (0 <= v / 128 < 128) by (split; [apply Z.div_pos | apply Z.div_lt_upper_bound]; lia).
    rewrite <- (Z.mul_1_l 128) at 1.
    rewrite Z.add_comm, Z.mod_add by lia. apply Z.mod_small. lia. }
  rewrite Hhigh. pose proof (Z.div_mod v 128 ltac:(lia)). lia.
Qed.

End DecoderFacts.

(** X1.  [process_data] returns no sample at all exactly when none of the
    scanned bytes (all but the first and the last of the buffer) exceeds
    127. *)
Theorem decoder_silent_iff (data : list Z) :
  SpikerStream.process_data data = Some [] <->
  Forall (fun b => b <= 127) (scanned data).
Proof.
  rewrite process_data_frames. unfold scanned.
  rewrite <- frames_nil_iff. split; [now intros [= ->] | now intros ->].
Qed.

(** X2.  [process_data] always returns, and with at most one sample for
    every two bytes after the first: [2 * len(result) <= len(data) - 1] on
    a non-empty buffer, nothing on an empty one. *)
Theorem decoder_output_length (data : list Z) :
  exists samples,
    SpikerStream.process_data data = Some samples /\
    2 * len samples <= Z.max 0 (len data - 1).
Proof.
  exists (SpikerStream.frames (tail data)). split; [apply process_data_frames|].
  pose proof (frames_length (tail data)) as Hlen.
  destruct data as [|first rest]; [exact Hlen|].
  simpl tail in *. unfold len in *. simpl length. lia.
Qed.

(** X3.  On a buffer of bytes (values 0 to 255) every decoded sample lies
    between 0 and 16511 = 127 * 128 + 255: the low byte is added as it is,
    its top bit is not masked. *)
Theorem decoder_sample_range (data : list Z) :
  Forall (fun b => 0 <= b <= 255) data ->
  exists samples,
    SpikerStream.process_data data = Some samples /\
    Forall (fun sample => 0 <= sample <= 16511) samples.
Proof.
  intros Hbytes.
  exists (SpikerStream.frames (tail data)). split; [apply process_data_frames|].
  apply frames_range. destruct data; [constructor | now inversion Hbytes].
Qed.

Lemma decoder_sample_range_witness :
  exists samples,
    SpikerStream.process_data [0; 255; 255; 0] = Some samples /\
    Forall (fun sample => 0 <= sample <= 16511) samples.
Proof.
  apply (decoder_sample_range [0; 255; 255; 0]).
  repeat constructor; discriminate.
Defined.

(** X4.  Round trip.  A read buffer made of any first byte, any bytes up
    to 127 (the tail of a frame cut by the previous read, or noise), and
    the frames of 14-bit samples decodes to exactly those samples, in
    order; one more byte after the last frame (a frame cut by the end of
    the read) changes nothing. *)
Theorem decoder_round_trip (first : Z) (garbage samples : list Z) :
  Forall (fun b => b <= 127) garbage ->
  Forall (fun v => 0 <= v < 16384) samples ->
  SpikerStream.process_data
    (first :: garbage ++ concat (map frame_of_sample samples)) = Some samples /\
  forall last,
    SpikerStream.process_data
      (first :: garbage ++ concat (map frame_of_sample samples) ++ [last])
    = Some samples.
Proof.
  intros Hgarbage Hsamples. split; [|intros last];
    rewrite process_data_frames; simpl tail; f_equal;
    rewrite frames_skip_prefix by done.
  - rewrite <- (app_nil_r (concat _)), frames_of_samples by done.
    apply app_nil_r.
  - rewrite frames_of_samples by done. apply app_nil_r.
Qed.

Lemma decoder_round_trip_witness :
  SpikerStream.process_data
    (7 :: [5; 100] ++ concat (map frame_of_sample [0; 133; 16383])) = Some [0; 133; 16383].
Proof.
  apply (decoder_round_trip 7 [5; 100] [0; 133; 16383]).
  - repeat constructor; discriminate.
  - repeat constructor; discriminate.
Defined.

(** * Further properties of the replay streams *)

Section ReplayFacts.

Lemma array_updates_reads (n : nat) (s : ArrayStream.t) :
  ArrayStream.updates n s = reads n s.
Proof.
  revert s. induction n as [|n IH]; intros s; [reflexivity|].
  simpl. destruct (ArrayStream.update s) as [[raw_data s'] printed].
  now rewrite IH.
Qed.

Lemma wav_update_as_array (w : WAVStream.t) :
  WAVStream.update w =
  let '(raw_data, a', printed) := ArrayStream.update (wav_as_array w) in
  (raw_data, array_as_wav a', printed).
Proof.
  unfold WAVStream.update, ArrayStream.update, wav_as_array. simpl.
  destruct (len (WAVStream.array w) <? WAVStream.pointer w + WAVStream.chunk w);
    reflexivity.
Qed.

Lemma wav_as_array_as_wav (a : ArrayStream.t) : wav_as_array (array_as_wav a) = a.
Proof. now destruct a. Qed.

Lemma wav_reads_as_array (n : nat) (w : WAVStream.t) :
  reads n w =
  let '(chunks, a', printed) := ArrayStream.updates n (wav_as_array w) in
  (chunks, array_as_wav a', printed).
Proof.
  revert w. induction n as [|n IH]; intros w; [now destruct w|].
  cbn [reads ArrayStream.updates update WAVStream_InputStream].
  rewrite wav_update_as_array.
  destruct (ArrayStream.update (wav_as_array w)) as [[raw_data a'] printed].
  rewrite IH, wav_as_array_as_wav.
  now destruct (ArrayStream.updates n a') as [[chunks a''] printed'].
Qed.

(** One [update] where a full chunk is left. *)
Lemma array_update_full (s : ArrayStream.t) :
  0 <= ArrayStream.chunk s ->
  0 <= ArrayStream.pointer s ->
  ArrayStream.pointer s + ArrayStream.chunk s <= len (ArrayStream.array s) ->
  ArrayStream.update s =
  (take (Z.to_nat (ArrayStream.chunk s))
     (drop (Z.to_nat (ArrayStream.pointer s)) (ArrayStream.array s)),
   ArrayStream.mk (ArrayStream.array s) (ArrayStream.chunk s)
     (ArrayStream.buffer_time s) (ArrayStream.pointer s + ArrayStream.chunk s),
   []).
Proof.
  intros Hc Hp Hfit. unfold ArrayStream.update.
  rewrite py_slice_forward by lia.
  destruct (Z.ltb_spec (len (ArrayStream.array s))
              (ArrayStream.pointer s + ArrayStream.chunk s)); [lia | reflexivity].
Qed.

(** One [update] where less than a full chunk is left, or exactly
    nothing beyond it. *)
Lemma array_update_wrap (s : ArrayStream.t) :
  0 <= ArrayStream.chunk s ->
  0 <= ArrayStream.pointer s <= len (ArrayStream.array s) ->
  len (ArrayStream.array s) < ArrayStream.pointer s + ArrayStream.chunk s ->
  ArrayStream.update s =
  (drop (Z.to_nat (ArrayStream.pointer s)) (ArrayStream.array s),
   rewound s, ["Restarting stream..."%string]).
Proof.
  intros Hc Hp Hover. unfold ArrayStream.update.
  rewrite py_slice_forward by lia.
  destruct (Z.ltb_spec (len (ArrayStream.array s))
              (ArrayStream.pointer s + ArrayStream.chunk s)); [|lia].
  rewrite take_ge; [reflexivity|].
  rewrite length_drop. unfold len in *. lia.
Qed.

(** From any pointer inside the array to the wrap. *)
Lemma array_run_to_wrap (n : nat) :
  forall s : ArrayStream.t,
    0 < ArrayStream.chunk s ->
    0 <= ArrayStream.pointer s <= len (ArrayStream.array s) ->
    Z.of_nat n = (len (ArrayStream.array s) - ArrayStream.pointer s) / ArrayStream.chunk s ->
    exists full rest,
      ArrayStream.updates (Datatypes.S n) s
        = (full ++ [rest], rewound s, ["Restarting stream..."%string]) /\
      length full = n /\
      Forall (fun raw_data => len raw_data = ArrayStream.chunk s) full /\
      len rest = (len (ArrayStream.array s) - ArrayStream.pointer s) mod ArrayStream.chunk s /\
      concat (full ++ [rest])
        = drop (Z.to_nat (ArrayStream.pointer s)) (ArrayStream.array s).
Proof.
  induction n as [|n IH]; intros s Hc Hp Hn.
  - (* the wrap is now *)
    assert (Hsmall : 0 <= len (ArrayStream.array s) - ArrayStream.pointer s
                     < ArrayStream.chunk s).
    { split; [lia|].
      destruct (Z.lt_ge_cases (len (ArrayStream.array s) - ArrayStream.pointer s)
                  (ArrayStream.chunk s)) as [|Hge]; [done|].
      pose proof (Z.div_le_lower_bound
                    (len (ArrayStream.array s) - ArrayStream.pointer s)
                    (ArrayStream.chunk s) 1 Hc ltac:(lia)). lia. }
    exists [], (drop (Z.to_nat (ArrayStream.pointer s)) (ArrayStream.array s)).
    cbn [ArrayStream.updates]. rewrite array_update_wrap by lia.
    repeat split.
    + constructor.
    + rewrite Z.mod_small by lia. unfold len in *. rewrite length_drop. lia.
    + simpl. apply app_nil_r.
  - (* a full chunk first *)
    assert (Hfit : ArrayStream.pointer s + ArrayStream.chunk s
                   <= len (ArrayStream.array s)).
    { pose proof (Z.mul_div_le (len (ArrayStream.array s) - ArrayStream.pointer s)
                    (ArrayStream.chunk s) Hc). nia. }
    set (s' := ArrayStream.mk (ArrayStream.array s) (ArrayStream.chunk s)
                 (ArrayStream.buffer_time s)
                 (ArrayStream.pointer s + ArrayStream.chunk s)).
    assert (Hdiv : (len (ArrayStream.array s) - ArrayStream.pointer s) / ArrayStream.chunk s
                   = (len (ArrayStream.array s') - ArrayStream.pointer s')
                       / ArrayStream.chunk s' + 1).
    { subst s'. simpl.
      replace (len (ArrayStream.array s) - ArrayStream.pointer s)
        with (len (ArrayStream.array s) - (ArrayStream.pointer s + ArrayStream.chunk s)
              + 1 * ArrayStream.chunk s) by lia.
      rewrite Z.div_add by lia. reflexivity. }
    assert (Hmod : (len (ArrayStream.array s) - ArrayStream.pointer s) mod ArrayStream.chunk s
                   = (len (ArrayStream.array s') - ArrayStream.pointer s')
                       mod ArrayStream.chunk s').
    { subst s'. simpl.
      replace (len (ArrayStream.array s) - ArrayStream.pointer s)
        with (len (ArrayStream.array s) - (ArrayStream.pointer s + ArrayStream.chunk s)
              + 1 * ArrayStream.chunk s) by lia.
      rewrite Z.mod_add by lia. reflexivity. }
    destruct (IH s') as (full & rest & Hrun & Hlen & Hfull & Hrest & Hcat).
    { exact Hc. } { subst s'; simpl; lia. } { lia. }
    exists (take (Z.to_nat (ArrayStream.chunk s))
              (drop (Z.to_nat (ArrayStream.pointer s)) (ArrayStream.array s)) :: full), rest.
    change (ArrayStream.updates (Datatypes.S (Datatypes.S n)) s)
      with (let '(array_slice, self', out) := ArrayStream.update s in
            let '(slices, self'', out') := ArrayStream.updates (Datatypes.S n) self' in
            (array_slice :: slices, self'', out ++ out')).
    rewrite array_update_full by lia. fold s'. rewrite Hrun.
    repeat split.
    + simpl. now rewrite Hlen.
    + constructor; [|exact Hfull].
      unfold len in *. rewrite length_take, length_drop. lia.
    + rewrite Hmod. exact Hrest.
    + change ((?x :: full) ++ [rest]) with (x :: (full ++ [rest])).
      cbn [concat]. rewrite Hcat. subst s'. simpl.
      replace (Z.to_nat (ArrayStream.pointer s + ArrayStream.chunk s))
        with (Z.to_nat (ArrayStream.pointer s) + Z.to_nat (ArrayStream.chunk s))%nat by lia.
      rewrite <- drop_drop. apply take_drop.
Qed.

End ReplayFacts.

(** X5.  Replay to the wrap.  An [ArrayStream] with a positive chunk and
    its pointer inside the array reaches the wrap after
    [(len(array) - pointer) // chunk + 1] updates.  The chunks read on the
    way are, put end to end, exactly the rest of the array from the
    pointer on: all but the last hold [chunk] samples, the last holds the
    [(len(array) - pointer) % chunk] left over (none at all when [chunk]
    divides what was left).  Only the last update prints the restart
    notice, and it leaves the pointer at 0 and the rest of the stream as it
    was. *)
Theorem array_replay_to_wrap (s : ArrayStream.t) :
  0 < ArrayStream.chunk s ->
  0 <= ArrayStream.pointer s <= len (ArrayStream.array s) ->
  let left := len (ArrayStream.array s) - ArrayStream.pointer s in
  exists full rest,
    ArrayStream.updates (Datatypes.S (Z.to_nat (left / ArrayStream.chunk s))) s
      = (full ++ [rest], rewound s, ["Restarting stream..."%string]) /\
    Z.of_nat (length full) = left / ArrayStream.chunk s /\
    Forall (fun raw_data => len raw_data = ArrayStream.chunk s) full /\
    len rest = left mod ArrayStream.chunk s /\
    concat (full ++ [rest])
      = drop (Z.to_nat (ArrayStream.pointer s)) (ArrayStream.array s).
Proof.
  intros Hc Hp left.
  assert (Hq : 0 <= left / ArrayStream.chunk s)
    by (apply Z.div_pos; subst left; lia).
  destruct (array_run_to_wrap (Z.to_nat (left / ArrayStream.chunk s)) s Hc Hp)
    as (full & rest & Hrun & Hlen & Hrest); [subst left; lia|].
  exists full, rest. split; [exact Hrun|]. split; [lia | exact Hrest].
Qed.

Lemma array_replay_to_wrap_witness :
  exists full rest,
    ArrayStream.updates 3 (ArrayStream.mk samples25 10 (1 # 2) 0)
      = (full ++ [rest], ArrayStream.mk samples25 10 (1 # 2) 0,
         ["Restarting stream..."%string]) /\
    len rest = 5 /\
    concat (full ++ [rest]) = samples25.
Proof.
  destruct (array_replay_to_wrap (ArrayStream.mk samples25 10 (1 # 2) 0))
    as (full & rest & Hrun & _ & _ & Hrest & Hcat).
  - reflexivity.
  - split; discriminate.
  - exists full, rest. split; [exact Hrun|]. split; [exact Hrest | exact Hcat].
Defined.

(** X6.  A freshly built [ArrayStream] replays its array for ever: with a
    constructor argument of at least 4 (a chunk of at least one sample),
    after [len(array) // chunk + 1] updates the stream is again exactly as
    built, having handed out the whole array once, in order, and printed
    one restart notice. *)
Theorem array_replay_period (array : list Q) (chunk_arg : Z) :
  4 <= chunk_arg ->
  let s := ArrayStream.init array chunk_arg in
  exists chunks,
    ArrayStream.updates
      (Datatypes.S (Z.to_nat (len array / ArrayStream.chunk s))) s
      = (chunks, s, ["Restarting stream..."%string]) /\
    concat chunks = array /\
    Forall (fun raw_data => len raw_data <= ArrayStream.chunk s) chunks.
Proof.
  intros Harg s.
  assert (Hc : 0 < ArrayStream.chunk s).
  { subst s. simpl.
    pose proof (Z.div_le_lower_bound chunk_arg 2 2 ltac:(lia) ltac:(lia)). lia. }
  destruct (array_run_to_wrap (Z.to_nat (len array / ArrayStream.chunk s)) s Hc)
    as (full & rest & Hrun & _ & Hfull & Hrest & Hcat).
  { subst s. simpl. pose proof (len_nonneg array). lia. }
  { pose proof (Z.div_pos (len array) (ArrayStream.chunk s) (len_nonneg array) Hc).
    subst s. simpl in *. rewrite Z.sub_0_r. lia. }
  exists (full ++ [rest]).
  replace (len (ArrayStream.array s) - ArrayStream.pointer s) with (len array) in *
    by (subst s; simpl; lia).
  split; [exact Hrun|]. split; [exact Hcat|].
  apply Forall_app. split.
  - eapply Forall_impl; [exact Hfull|]. simpl. intros raw_data ->. lia.
  - constructor; [|constructor].
    pose proof (Z.mod_pos_bound (len array) (ArrayStream.chunk s) Hc). lia.
Qed.

Lemma array_replay_period_witness :
  exists chunks,
    ArrayStream.updates 3 (ArrayStream.init samples25 22)
      = (chunks, ArrayStream.init samples25 22, ["Restarting stream..."%string]) /\
    concat chunks = samples25.
Proof.
  destruct (array_replay_period samples25 22) as (chunks & Hrun & Hcat & _).
  - discriminate.
  - exists chunks. split; [exact Hrun | exact Hcat].
Defined.

(** X7.  A [WAVStream] replays the same way: with a positive chunk and its
    pointer inside the frames, [(len(array) - pointer) // chunk + 1]
    updates hand out the rest of the frames from the pointer on, in order
    and without gap or repeat, print one restart notice (at the last of
    them) and leave the pointer at 0. *)
Theorem wav_replay_to_wrap (w : WAVStream.t) :
  0 < WAVStream.chunk w ->
  0 <= WAVStream.pointer w <= len (WAVStream.array w) ->
  let left := len (WAVStream.array w) - WAVStream.pointer w in
  exists chunks,
    reads (Datatypes.S (Z.to_nat (left / WAVStream.chunk w))) w
      = (chunks,
         WAVStream.mk (WAVStream.array w) (WAVStream.chunk w) (WAVStream.buffer_time w) 0,
         ["Restarting stream..."%string]) /\
    concat chunks = drop (Z.to_nat (WAVStream.pointer w)) (WAVStream.array w) /\
    Forall (fun raw_data => len raw_data <= WAVStream.chunk w) chunks.
Proof.
  intros Hc Hp left.
  destruct (array_run_to_wrap (Z.to_nat (left / WAVStream.chunk w)) (wav_as_array w))
    as (full & rest & Hrun & _ & Hfull & Hrest & Hcat); [exact Hc | exact Hp | |].
  { pose proof (Z.div_pos left (WAVStream.chunk w)). subst left. simpl. lia. }
  exists (full ++ [rest]).
  rewrite wav_reads_as_array, Hrun.
  split; [reflexivity|]. split; [exact Hcat|].
  apply Forall_app. split.
  - eapply Forall_impl; [exact Hfull|]. simpl. intros raw_data ->. lia.
  - constructor; [|constructor]. simpl in Hrest.
    pose proof (Z.mod_pos_bound (len (WAVStream.array w) - WAVStream.pointer w)
                  (WAVStream.chunk w) Hc). lia.
Qed.

Lemma wav_replay_to_wrap_witness :
  exists chunks,
    reads 3 Demo.wav6 = (chunks, Demo.wav6, ["Restarting stream..."%string]) /\
    concat chunks = map inject_Z [-3; -2; -1; 1; 2; 3].
Proof.
  destruct (wav_replay_to_wrap Demo.wav6) as (chunks & Hrun & Hcat & _).
  - reflexivity.
  - split; discriminate.
  - exists chunks. split; [exact Hrun | exact Hcat].
Defined.

(** X8.  A replay stream whose chunk is 0 (an [ArrayStream] built with
    argument 2 or 3) is stuck: every update returns an empty chunk, the
    pointer does not move and the stream never restarts. *)
Theorem array_zero_chunk_stuck (s : ArrayStream.t) (n : nat) :
  ArrayStream.chunk s = 0 ->
  0 <= ArrayStream.pointer s <= len (ArrayStream.array s) ->
  ArrayStream.updates n s = (replicate n [], s, []).
Proof.
  destruct s as [array c bt p]. simpl. intros -> Hp.
  induction n as [|n IH]; [reflexivity|].
  cbn [ArrayStream.updates].
  rewrite array_update_full by (simpl; lia). simpl.
  rewrite Z.add_0_r, IH. reflexivity.
Qed.

Lemma array_zero_chunk_stuck_witness :
  ArrayStream.updates 5 (ArrayStream.init samples25 3)
  = (replicate 5 [], ArrayStream.init samples25 3, []).
Proof.
  apply (array_zero_chunk_stuck (ArrayStream.init samples25 3) 5).
  - reflexivity.
  - split; discriminate.
Defined.


(** * Further properties of the pipeline *)

Section PipelineFacts.
Context `{Collaborators} {S : Type} `{InputStream S}.
Implicit Types (self : SpikerBox.t S) (controls : gmap string Z) (tick : Z).

(** What one call keeps and how much it does. *)
Lemma process_input_step self controls tick :
  let '(controls', self', log) := SpikerBox.process_input self controls tick in
  SpikerBox.model self' = SpikerBox.model self /\
  SpikerBox.smoothing_flag self' = SpikerBox.smoothing_flag self /\
  SpikerBox.buffer_size self' = SpikerBox.buffer_size self /\
  (is_Some (SpikerBox.buffer self) -> is_Some (SpikerBox.buffer self')) /\
  (SpikerBox.buffer_timer self' = 0 \/
   SpikerBox.gated (SpikerBox.buffer_timer self') (SpikerBox.stream self') = true) /\
  (SpikerBox.count_updates log <= 1)%nat /\
  (SpikerBox.count_predicts log <= SpikerBox.count_updates log)%nat /\
  controls' !! CONTROL_SHOOT = controls !! CONTROL_SHOOT.
Proof.
  destruct (SpikerBox.gated (SpikerBox.buffer_timer self + tick)
              (SpikerBox.stream self)) eqn:Hg.
  - rewrite process_input_gated by done. simpl.
    repeat split; auto.
  - pose proof (process_input_open self controls tick Hg) as Hopen.
    destruct (update (SpikerBox.stream self)) as [[raw_data stream'] printed].
    cbv zeta in Hopen.
    destruct (classify_cases self
                (SpikerBox.fill_buffer (SpikerBox.buffer_size self)
                   (SpikerBox.buffer self) raw_data))
      as [(_ & features & Hc) | (_ & Hc)];
      rewrite Hc in Hopen; destruct Hopen as (shown & Hshown & ->);
      cbn [SpikerBox.model SpikerBox.smoothing_flag SpikerBox.buffer_size
           SpikerBox.buffer SpikerBox.buffer_timer];
      change (EvUpdate :: ?l) with ([EvUpdate] ++ l);
      rewrite !count_updates_app, !count_predicts_app,
        count_updates_prints, count_predicts_prints;
      (assert (Hs : SpikerBox.count_updates shown = 0%nat /\
                    SpikerBox.count_predicts shown = 0%nat)
         by (destruct Hshown as [-> | ->]; split; reflexivity));
      destruct Hs as [-> ->]; cbn;
      (repeat split; auto; try lia; try (now apply set_controls_other)).
Qed.

(** X10.  Over any run of calls, [process_input] keeps the model, the
    smoothing flag and [buffer_size]; a window, once there, never goes
    away; the stream is read at most once per call and the model is asked
    at most once per read; [SHOOT] comes back as it went in; and after the
    last call the timer is 0 or still below the stream's buffer time. *)
Theorem polls_keep (ticks : list Z) :
  forall self controls,
    let '(controls', self', log) := SpikerBox.polls self controls ticks in
    SpikerBox.model self' = SpikerBox.model self /\
    SpikerBox.smoothing_flag self' = SpikerBox.smoothing_flag self /\
    SpikerBox.buffer_size self' = SpikerBox.buffer_size self /\
    (is_Some (SpikerBox.buffer self) -> is_Some (SpikerBox.buffer self')) /\
    (SpikerBox.count_updates log <= length ticks)%nat /\
    (SpikerBox.count_predicts log <= SpikerBox.count_updates log)%nat /\
    controls' !! CONTROL_SHOOT = controls !! CONTROL_SHOOT /\
    (ticks <> [] ->
     SpikerBox.buffer_timer self' = 0 \/
     SpikerBox.gated (SpikerBox.buffer_timer self') (SpikerBox.stream self') = true).
Proof.
  induction ticks as [|tick ticks IH]; intros self controls.
  - simpl. repeat split; auto; try (intros Hne; now destruct Hne).
  - cbn [SpikerBox.polls].
    pose proof (process_input_step self controls tick) as Hstep.
    destruct (SpikerBox.process_input self controls tick) as [[controls1 self1] log1].
    specialize (IH self1 controls1).
    destruct (SpikerBox.polls self1 controls1 ticks) as [[controls2 self2] log2]
      eqn:Hpolls.
    destruct Hstep as (Hm & Hf & Hb & Hw & Ht & Hu & Hp & Hs).
    destruct IH as (Hm' & Hf' & Hb' & Hw' & Hu' & Hp' & Hs' & Ht').
    rewrite count_updates_app, count_predicts_app.
    repeat split; try congruence; auto.
    + simpl. lia.
    + lia.
    + intros _. destruct ticks as [|tick' ticks'].
      * simpl in Hpolls. injection Hpolls as <- <- <-. exact Ht.
      * apply Ht'. discriminate.
Qed.

End PipelineFacts.

(** * Further properties of the sliding window *)

Section WindowFacts.
Context {A : Type}.
Implicit Types (buffer raw_data window : list A) (chunks : list (list A)).

(** A pull keeps an end piece of the old window and puts the whole chunk
    behind it. *)
Lemma fill_buffer_suffix (B : Z) (start : option (list A)) raw_data :
  SpikerBox.fill_buffer B start raw_data `suffix_of` (default [] start ++ raw_data) /\
  raw_data `suffix_of` SpikerBox.fill_buffer B start raw_data.
Proof.
  destruct start as [buffer|]; simpl; [|split; reflexivity].
  destruct (B <? len buffer).
  - split; [apply suffix_app, suffix_drop | now apply suffix_app_r].
  - split; [reflexivity | now apply suffix_app_r].
Qed.

Lemma pulls_suffix (B : Z) chunks :
  forall (start : option (list A)) window,
    SpikerBox.pulls B start chunks = Some window ->
    window `suffix_of` (default [] start ++ concat chunks).
Proof.
  induction chunks as [|raw_data chunks IH]; intros start window.
  - simpl. intros ->. simpl. now rewrite app_nil_r.
  - rewrite pulls_cons. intros Hpulls. apply IH in Hpulls. simpl in Hpulls |- *.
    etransitivity; [exact Hpulls|].
    rewrite app_assoc. apply suffix_app.
    apply (fill_buffer_suffix B start raw_data).
Qed.

Lemma pulls_snoc (B : Z) (start : option (list A)) chunks raw_data :
  SpikerBox.pulls B start (chunks ++ [raw_data])
  = Some (SpikerBox.fill_buffer B (SpikerBox.pulls B start chunks) raw_data).
Proof. unfold SpikerBox.pulls. now rewrite foldl_app. Qed.

(** X11.  The window is always the most recent stretch of the stream: after
    any sequence of pulls from an empty pipeline it is an end piece of all
    the chunks pulled so far put end to end (nothing reordered, repeated or
    dropped from the middle), and it holds the whole of the newest
    chunk. *)
Theorem window_is_stream_suffix (buffer_size : Z) chunks raw_data :
  exists window,
    SpikerBox.pulls buffer_size None (chunks ++ [raw_data]) = Some window /\
    window `suffix_of` concat (chunks ++ [raw_data]) /\
    raw_data `suffix_of` window.
Proof.
  eexists. split; [apply pulls_snoc|]. split.
  - apply (pulls_suffix buffer_size (chunks ++ [raw_data]) None), pulls_snoc.
  - apply fill_buffer_suffix.
Qed.

Lemma pulls_full (B : Z) chunks :
  forall buffer,
    Forall (fun raw_data => len raw_data <= B) chunks ->
    B <= len buffer ->
    exists window,
      SpikerBox.pulls B (Some buffer) chunks = Some window /\ B <= len window.
Proof.
  induction chunks as [|raw_data chunks IH]; intros buffer Hall Hfull.
  - exists buffer. split; [reflexivity | exact Hfull].
  - inversion Hall as [|? ? Hraw Hrest]; subst. rewrite pulls_cons.
    apply IH; [exact Hrest|].
    pose proof (len_nonneg raw_data).
    destruct (Z.lt_ge_cases B (len buffer)).
    + rewrite len_fill_trimmed by done. lia.
    + rewrite len_fill_grown by lia. lia.
Qed.

(** X12.  Once the window holds [buffer_size] samples it never holds fewer
    again, as long as no pulled chunk is longer than [buffer_size]. *)
Theorem window_stays_full (buffer_size : Z) chunks buffer :
  Forall (fun raw_data => len raw_data <= buffer_size) chunks ->
  buffer_size <= len buffer ->
  exists window,
    SpikerBox.pulls buffer_size (Some buffer) chunks = Some window /\
    buffer_size <= len window.
Proof. apply pulls_full. Qed.

Lemma pulls_grow (B : Z) chunks :
  forall buffer,
    len (buffer ++ concat (removelast chunks)) <= B ->
    SpikerBox.pulls B (Some buffer) chunks = Some (buffer ++ concat chunks).
Proof.
  induction chunks as [|raw_data chunks IH]; intros buffer Hroom.
  - simpl. now rewrite app_nil_r.
  - rewrite pulls_cons.
    assert (Hsmall : len buffer <= B).
    { rewrite len_app in Hroom. pose proof (len_nonneg (concat (removelast (raw_data :: chunks)))). lia. }
    assert (Hfill : SpikerBox.fill_buffer B (Some buffer) raw_data = buffer ++ raw_data).
    { unfold SpikerBox.fill_buffer.
      destruct (Z.ltb_spec B (len buffer)); [lia | reflexivity]. }
    rewrite Hfill. destruct chunks as [|next chunks].
    + simpl. now rewrite app_nil_r.
    + rewrite IH; [simpl; now rewrite <- app_assoc|].
      change (removelast (raw_data :: next :: chunks))
        with (raw_data :: removelast (next :: chunks)) in Hroom.
      simpl concat in Hroom. now rewrite <- app_assoc.
Qed.

(** X13.  Filling up.  From an empty pipeline nothing is dropped while the
    window has not exceeded [buffer_size]: if the chunks before the newest
    hold no more than [buffer_size] samples together, the window is all
    the chunks pulled so far, end to end. *)
Theorem window_fills_without_loss (buffer_size : Z) chunks raw_data :
  len (concat chunks) <= buffer_size ->
  SpikerBox.pulls buffer_size None (chunks ++ [raw_data])
  = Some (concat (chunks ++ [raw_data])).
Proof.
  intros Hroom. destruct chunks as [|first chunks]; [simpl; now rewrite app_nil_r|].
  change ((first :: chunks) ++ [raw_data]) with (first :: (chunks ++ [raw_data])).
  rewrite pulls_cons. cbn [SpikerBox.fill_buffer].
  apply pulls_grow. now rewrite removelast_last.
Qed.

End WindowFacts.

Section WindowCycle.
Context {A : Type}.
Implicit Types (buffer raw_data window : list A) (chunks : list (list A)).

(** X14.  The steady state.  With chunks of one length [c] between 1 and
    [buffer_size], a window of exactly [buffer_size] samples grows to
    [buffer_size + c] on the next pull and then loses one sample per pull:
    after [k] pulls ([1 <= k <= c + 1]) it holds
    [buffer_size + c + 1 - k] samples.  So it is back at [buffer_size]
    after [c + 1] pulls, the one pull in every [c + 1] whose window is not
    longer than [buffer_size]. *)
Theorem window_steady_cycle (buffer_size c : Z) buffer chunks (k : nat) :
  1 <= c <= buffer_size ->
  len buffer = buffer_size ->
  Forall (fun raw_data => len raw_data = c) chunks ->
  (1 <= k <= length chunks)%nat ->
  Z.of_nat k <= c + 1 ->
  exists window,
    SpikerBox.pulls buffer_size (Some buffer) (take k chunks) = Some window /\
    len window = buffer_size + c + 1 - Z.of_nat k.
Proof.
  intros Hc Hbuf Hall Hk Hkc.
  destruct chunks as [|first rest]; [simpl in Hk; lia|].
  destruct k as [|k]; [lia|].
  inversion Hall as [|? ? Hfirst Hrest]; subst.
  cbn [take]. rewrite pulls_cons.
  assert (Hgrown : len (SpikerBox.fill_buffer (len buffer) (Some buffer) first)
                   = len buffer + len first)
    by (apply len_fill_grown; lia).
  destruct (pulls_shrink (len buffer) (take k rest)
              (SpikerBox.fill_buffer (len buffer) (Some buffer) first))
    as (window & Hw & Hlen).
  - apply Forall_take. eapply Forall_impl; [exact Hrest|].
    simpl. intros raw_data ->. lia.
  - unfold len at 2. rewrite length_take. simpl in Hk. lia.
  - exists window. split; [exact Hw|].
    rewrite Hlen, Hgrown. unfold len at 3. rewrite length_take. simpl in Hk. lia.
Qed.

End WindowCycle.

Lemma window_steady_cycle_witness :
  exists window : list Z,
    SpikerBox.pulls 3 (Some [1; 2; 3]) (take 3 [[4; 5]; [6; 7]; [8; 9]]) = Some window /\
    len window = 3 + 2 + 1 - Z.of_nat 3.
Proof.
  apply (window_steady_cycle 3 2 [1; 2; 3] [[4; 5]; [6; 7]; [8; 9]] 3).
  - split; discriminate.
  - reflexivity.
  - repeat constructor.
  - simpl. split; auto with arith.
  - discriminate.
Defined.

Lemma window_stays_full_witness :
  exists window : list Z,
    SpikerBox.pulls 3 (Some [1; 2; 3; 4]) [[5; 6]; []; [7]] = Some window /\
    3 <= len window.
Proof.
  apply (window_stays_full 3 [[5; 6]; []; [7]] [1; 2; 3; 4]).
  - repeat constructor; discriminate.
  - discriminate.
Defined.

Lemma window_fills_without_loss_witness :
  SpikerBox.pulls 4 None ([[1; 2]; [3; 4]] ++ [[5; 6]])
  = Some (concat ([[1; 2]; [3; 4]] ++ [[5; 6 : Z]])).
Proof.
  apply (window_fills_without_loss 4 [[1; 2]; [3; 4]] [5; 6]).
  discriminate.
Defined.

(** * Further properties of the normalisation *)

Section NormalisationFacts.
Import WaveformSnipper.










End NormalisationFacts.

(** X15.  [normalise_signal] fails exactly on the empty signal ([np.max]
    of an empty array raises [ValueError]); on every other signal it
    returns one value per sample. *)
Theorem normalise_raises_iff_empty (signal : list Q) :
  (WaveformSnipper.normalise_signal signal = None <-> signal = []) /\
  (forall out, WaveformSnipper.normalise_signal signal = Some out ->
               length out = length signal).
Proof.
  unfold WaveformSnipper.normalise_signal.
  destruct signal as [|x signal]; [split; [done | discriminate]|].
  simpl. split; [split; discriminate|].
  intros out [= <-]. simpl. now rewrite !length_map.
Qed.



Section NormalisationInvariance.
Import WaveformSnipper.







End NormalisationInvariance.


(** * Snippet file names *)

Section SnippetNames.
Import SnippetFiles.

Lemma lacks_app (ch : ascii) (a b : string) :
  lacks ch (a +:+ b) <-> lacks ch a /\ lacks ch b.
Proof.
  unfold lacks. induction a as [|c a IH]; simpl.
  - tauto.
  - change (String c a +:+ b) with (String c (a +:+ b)). simpl. tauto.
Qed.

Lemma lacks_cons (ch c : ascii) (s : string) :
  lacks ch (String c s) <-> c <> ch /\ lacks ch s.
Proof. unfold lacks. simpl. tauto. Qed.

Lemma str_split_ne (sep : ascii) (s : string) : str_split sep s <> [].
Proof.
  destruct s as [|ch rest]; simpl; [discriminate|].
  destruct (Ascii.eqb ch sep); [discriminate|].
  destruct (str_split sep rest); discriminate.
Qed.

(** Without the separator there is nothing to split. *)
Lemma str_split_lacks (sep : ascii) (s : string) :
  lacks sep s -> str_split sep s = [s].
Proof.
  induction s as [|ch rest IH]; [reflexivity|].
  rewrite lacks_cons. intros [Hch Hrest]. simpl.
  destruct (Ascii.eqb_spec ch sep); [done|].
  now rewrite IH.
Qed.

(** Splitting on both sides of a separator. *)
Lemma str_split_app (sep : ascii) (a b : string) :
  str_split sep (a +:+ String sep b) = str_split sep a ++ str_split sep b.
Proof.
  induction a as [|ch rest IH].
  - simpl. now rewrite Ascii.eqb_refl.
  - change (String ch rest +:+ String sep b) with (String ch (rest +:+ String sep b)).
    simpl. destruct (Ascii.eqb ch sep); [now rewrite IH|].
    rewrite IH. pose proof (str_split_ne sep rest).
    destruct (str_split sep rest); [done | reflexivity].
Qed.

Lemma last_app_ne {A} (l k : list A) (d : A) :
  k <> [] -> List.last (l ++ k) d = List.last k d.
Proof.
  intros Hk. induction l as [|x l IH]; [reflexivity|].
  simpl. destruct (l ++ k) eqn:E; [|exact IH].
  apply app_eq_nil in E as [_ ->]. done.
Qed.

Lemma path_tail_join (directory name : string) :
  lacks "/" name -> path_tail (directory +:+ String "/" name) = name.
Proof.
  intros Hname. unfold path_tail.
  rewrite str_split_app, (str_split_lacks _ name Hname).
  now rewrite last_app_ne.
Qed.

(** The last but one of a list that ends in two known items. *)
Lemma py_index_last_but_one {A} (l : list A) (x y : A) :
  py_index (l ++ [x; y]) (-2) = Some x.
Proof.
  unfold py_index.
  assert (Hlen : len (l ++ [x; y]) = len l + 2)
    by (rewrite len_app; reflexivity).
  rewrite Hlen. pose proof (len_nonneg l).
  replace (-2 <? 0) with true by reflexivity.
  replace (-2 + (len l + 2)) with (len l) by lia.
  destruct (Z.leb_spec 0 (len l)); [|lia].
  destruct (Z.ltb_spec (len l) (len l + 2)); [|lia].
  simpl. unfold len. rewrite Nat2Z.id.
  now rewrite lookup_app_r, Nat.sub_diag.
Qed.

Lemma py_index_short {A} (x : A) : py_index [x] (-2) = None.
Proof. reflexivity. Qed.

End SnippetNames.

Section SnippetRoundTrip.
Import SnippetFiles.

Lemma str_app_assoc (a b c : string) : (a +:+ b) +:+ c = a +:+ (b +:+ c).
Proof.
  induction a as [|ch a IH]; [reflexivity|].
  change (String ch ((a +:+ b) +:+ c) = String ch (a +:+ (b +:+ c))). now rewrite IH.
Qed.

(** A character that is no digit is not printed. *)
Lemma pretty_N_go_lacks (ch : ascii) (x : N) :
  (forall d, pretty_N_char d <> ch) ->
  forall s, lacks ch s -> lacks ch (pretty_N_go x s).
Proof.
  intros Hdigit. induction (N.lt_wf_0 x) as [x _ IH]. intros s Hs.
  destruct (N.eq_dec x 0%N) as [->|Hx]; [now rewrite pretty_N_go_0|].
  rewrite pretty_N_go_step by lia.
  apply IH; [apply N.div_lt; lia|].
  apply lacks_cons. split; [apply Hdigit | exact Hs].
Qed.

Lemma pretty_Z_lacks (ch : ascii) (n : Z) :
  0 <= n -> (forall d, pretty_N_char d <> ch) -> lacks ch (pretty n).
Proof.
  intros Hn Hdigit. destruct n as [|p|p]; [| |lia].
  - apply lacks_cons. split; [apply (Hdigit 0%N) | intros []].
  - unfold pretty, pretty_Z, pretty, pretty_positive, pretty, pretty_N.
    destruct (decide (N.pos p = 0%N)); [discriminate|].
    apply pretty_N_go_lacks; [exact Hdigit | intros []].
Qed.

Lemma digit_not_underscore d : pretty_N_char d <> "_"%char.
Proof. unfold pretty_N_char. repeat case_match; discriminate. Qed.

Lemma digit_not_slash d : pretty_N_char d <> "/"%char.
Proof. unfold pretty_N_char. repeat case_match; discriminate. Qed.

Lemma npy_lacks_underscore : lacks "_" ".npy".
Proof. unfold lacks. simpl. intros [H|[H|[H|[H|[]]]]]; discriminate H. Qed.

Lemma npy_lacks_slash : lacks "/" ".npy".
Proof. unfold lacks. simpl. intros [H|[H|[H|[H|[]]]]]; discriminate H. Qed.

(** The event of a file name [{tail}_{id}_{count}.npy] in any directory. *)
Lemma get_snippet_event_name (directory tail timestamp_id : string) (count : Z) :
  0 <= count ->
  lacks "/" tail -> lacks "/" timestamp_id ->
  get_snippet_event
    (directory +:+ String "/"
       (tail +:+ "_" +:+ timestamp_id +:+ "_" +:+ pretty count +:+ ".npy"))
  = Some (List.last (str_split "_" timestamp_id) EmptyString).
Proof.
  intros Hcount Htail Hid. unfold get_snippet_event.
  rewrite path_tail_join.
  2:{ repeat (apply lacks_app; split); try done.
      - apply lacks_cons. split; [discriminate | intros []].
      - apply lacks_cons. split; [discriminate | intros []].
      - now apply pretty_Z_lacks, digit_not_slash.
      - apply npy_lacks_slash. }
  repeat match goal with
         | |- context [String.append (String ?c EmptyString) ?x] =>
             change (String.append (String c EmptyString) x) with (String c x)
         end.
  rewrite !str_split_app.
  rewrite (str_split_lacks "_" (pretty count +:+ ".npy")).
  2:{ apply lacks_app. split; [|apply npy_lacks_underscore].
      now apply pretty_Z_lacks, digit_not_underscore. }
  destruct (exists_last (str_split_ne "_" timestamp_id)) as (parts & event & Hparts).
  rewrite Hparts, last_last, <- app_assoc, app_assoc.
  apply py_index_last_but_one.
Qed.

(** X18.  Round trip of the snippet file names.  For a snippet saved by
    [main] for event [timestamp_id] (as an event or as noise, with any
    non-negative count), [get_snippet_event] returns what follows the last
    underscore of [timestamp_id]: the event itself when it holds no
    underscore, only its last part otherwise.  (The recording name and the
    event hold no slash.) *)
Theorem snippet_event_round_trip
    (output_directory tail timestamp_id : string) (count : Z) :
  0 <= count ->
  lacks "/" tail -> lacks "/" timestamp_id ->
  let event := List.last (str_split "_" timestamp_id) EmptyString in
  get_snippet_event (snippet_path output_directory tail timestamp_id count)
    = Some event /\
  get_snippet_event (noise_path output_directory tail timestamp_id count)
    = Some event /\
  (lacks "_" timestamp_id -> event = timestamp_id).
Proof.
  intros Hcount Htail Hid event. split; [|split].
  - now apply get_snippet_event_name.
  - unfold noise_path.
    change ("/Noise/" +:+ ?x) with ("/Noise" +:+ String "/" x).
    rewrite <- str_app_assoc. now apply get_snippet_event_name.
  - intros Hno. subst event. now rewrite str_split_lacks.
Qed.

Lemma snippet_event_round_trip_witness :
  get_snippet_event (snippet_path "Snippets" "rec_01" "left" 12) = Some "left"%string /\
  get_snippet_event (snippet_path "Snippets" "rec_01" "eye_blink" 3) = Some "blink"%string.
Proof.
  split.
  - destruct (snippet_event_round_trip "Snippets" "rec_01" "left" 12) as (Hev & _ & Hsame).
    + discriminate.
    + unfold lacks. simpl. intros H. repeat (destruct H as [H|H]; [discriminate H|]). exact H.
    + unfold lacks. simpl. intros H. repeat (destruct H as [H|H]; [discriminate H|]). exact H.
    + rewrite Hev. reflexivity.
  - destruct (snippet_event_round_trip "Snippets" "rec_01" "eye_blink" 3) as (Hev & _).
    + discriminate.
    + unfold lacks. simpl. intros H. repeat (destruct H as [H|H]; [discriminate H|]). exact H.
    + unfold lacks. simpl. intros H. repeat (destruct H as [H|H]; [discriminate H|]). exact H.
    + rewrite Hev. reflexivity.
Defined.

(** X19.  [get_snippet_event] raises [IndexError] on a file name without
    underscore, in whatever directory. *)
Theorem snippet_event_needs_underscore (directory name : string) :
  lacks "/" name -> lacks "_" name ->
  get_snippet_event (directory +:+ String "/" name) = None /\
  get_snippet_event name = None.
Proof.
  intros Hslash Hunder. unfold get_snippet_event. split.
  - rewrite path_tail_join by done. now rewrite str_split_lacks.
  - unfold path_tail. rewrite (str_split_lacks "/" name) by done. simpl.
    now rewrite str_split_lacks.
Qed.

Lemma snippet_event_needs_underscore_witness :
  get_snippet_event ("Snippets" +:+ String "/" "left.npy") = None.
Proof.
  apply (snippet_event_needs_underscore "Snippets" "left.npy").
  - unfold lacks. simpl. intros H. repeat (destruct H as [H|H]; [discriminate H|]). exact H.
  - unfold lacks. simpl. intros H. repeat (destruct H as [H|H]; [discriminate H|]). exact H.
Defined.

End SnippetRoundTrip.

(** * The game loop around the pipeline *)

Section GameFacts.
Context `{Collaborators} {S : Type} `{InputStream S} `{Assets}.
Implicit Types (self : Game.t S) (frame : Frame) (player : Entity.t)
  (controls : gmap string Z).

(** The five phases of a frame that runs to its end. *)
Lemma update_phases self frame self' log :
  Game.update self frame = Running (self', log) ->
  exists s1 s2 s3 s4,
    Game.spawn_enemy (Game.set_tick self (frame_tick frame)) frame = Running s1 /\
    Game.process_input s1 (Game.keyboard s1) frame = Running (s2, log) /\
    Game.shoot_projectile s2 = Running s3 /\
    Game.move_entities s3 (Game.tick s3) = Running s4 /\
    Game.handle_collision s4 = Running self'.
Proof.
  unfold Game.update.
  destruct (Game.spawn_enemy _ frame) as [s1| |] eqn:Hp1; [|discriminate..].
  destruct (Game.process_input s1 _ frame) as [[s2 log2]| |] eqn:Hp2; [|discriminate..].
  destruct (Game.shoot_projectile s2) as [s3| |] eqn:Hp3; [|discriminate..].
  destruct (Game.move_entities s3 _) as [s4| |] eqn:Hp4; [|discriminate..].
  destruct (Game.handle_collision s4) as [s5| |] eqn:Hp5; [|discriminate..].
  intros [= <- <-]. exists s1, s2, s3, s4. repeat split; assumption.
Qed.

Lemma spawn_enemy_keeps self frame s1 :
  Game.spawn_enemy self frame = Running s1 ->
  Game.controls s1 = Game.controls self /\
  Game.player s1 = Game.player self /\
  Game.projectiles s1 = Game.projectiles self /\
  Game.keyboard s1 = Game.keyboard self /\
  Game.tick s1 = Game.tick self /\
  Game.spikerbox s1 = Game.spikerbox self.
Proof.
  unfold Game.spawn_enemy. destruct (Qltb _ _).
  - destruct (Entity.spawn_enemy_random _); [|discriminate].
    intros [= <-]. repeat split.
  - intros [= <-]. repeat split.
Qed.

Lemma keyboard_events_keeps events :
  forall self s1,
    Game.keyboard_events self events = Running s1 ->
    Game.player s1 = Game.player self /\
    Game.enemies s1 = Game.enemies self /\
    Game.projectiles s1 = Game.projectiles self /\
    Game.tick s1 = Game.tick self /\
    Game.spikerbox s1 = Game.spikerbox self /\
    (keys_present (Game.controls self) -> keys_present (Game.controls s1)).
Proof.
  induction events as [|event events IH]; intros self s1.
  - intros [= <-]. split_and!; auto.
  - destruct event as [|[]|]; cbn [Game.keyboard_events]; try discriminate;
      intros Hrun; apply IH in Hrun as (-> & -> & -> & -> & -> & Hkeys);
      split_and!; auto; intros Hk; apply Hkeys;
      destruct Hk as (Hl & Hr & Hs); unfold keys_present; simpl;
      rewrite ?lookup_insert; split_and!; repeat case_decide; eauto.
Qed.

Lemma spikerbox_events_keeps events :
  forall self s1,
    Game.spikerbox_events self events = Running s1 ->
    Game.controls s1 = Game.controls self /\
    Game.player s1 = Game.player self /\
    Game.enemies s1 = Game.enemies self /\
    Game.projectiles s1 = Game.projectiles self /\
    Game.tick s1 = Game.tick self /\
    Game.spikerbox s1 = Game.spikerbox self.
Proof.
  induction events as [|event events IH]; intros self s1.
  - intros [= <-]. repeat split.
  - destruct event as [|[]|]; cbn [Game.spikerbox_events]; try discriminate;
      intros Hrun; apply IH in Hrun as (-> & -> & -> & -> & -> & ->);
      repeat split.
Qed.

Lemma process_input_keeps self keyboard frame s2 log :
  Game.process_input self keyboard frame = Running (s2, log) ->
  Game.player s2 = Game.player self /\
  Game.enemies s2 = Game.enemies self /\
  Game.projectiles s2 = Game.projectiles self /\
  Game.tick s2 = Game.tick self.
Proof.
  unfold Game.process_input, Game.process_input_keyboard, Game.process_input_spikerbox.
  destruct (if keyboard then None else Game.spikerbox self) as [box|].
  - destruct (Game.spikerbox_events self _) as [s1| |] eqn:Hev; [|discriminate..].
    apply spikerbox_events_keeps in Hev as (_ & <- & <- & <- & <- & _).
    destruct (SpikerBox.process_input box _ _) as [[controls' box'] log'].
    intros [= <- <-]. repeat split.
  - destruct (Game.keyboard_events self _) as [s1| |] eqn:Hev; [|discriminate..].
    apply keyboard_events_keeps in Hev as (<- & <- & <- & <- & _).
    intros [= <- <-]. repeat split.
Qed.

Lemma shoot_projectile_keeps self s3 :
  Game.shoot_projectile self = Running s3 ->
  Game.player s3 = Game.player self /\
  Game.enemies s3 = Game.enemies self /\
  Game.tick s3 = Game.tick self /\
  Game.spikerbox s3 = Game.spikerbox self /\
  Game.keyboard s3 = Game.keyboard self /\
  Game.controls s3 !! CONTROL_LEFT = Game.controls self !! CONTROL_LEFT /\
  Game.controls s3 !! CONTROL_RIGHT = Game.controls self !! CONTROL_RIGHT /\
  Game.controls s3 !! CONTROL_SHOOT <> Some 1 /\
  is_Some (Game.controls s3 !! CONTROL_SHOOT) /\
  (Game.controls self !! CONTROL_SHOOT <> Some 1 ->
   Game.projectiles s3 = Game.projectiles self).
Proof.
  unfold Game.shoot_projectile.
  destruct (Game.controls self !! CONTROL_SHOOT) as [shoot|] eqn:Hshoot; [|discriminate].
  destruct (Z.eqb_spec shoot 1) as [->|Hne]; intros [= <-]; simpl.
  - rewrite !lookup_insert_ne by done. rewrite lookup_insert_eq.
    repeat split; eauto; try discriminate. intros Hno. now destruct Hno.
  - rewrite Hshoot. repeat split; eauto. intros [= ->]. done.
Qed.

End GameFacts.

Section GameMoves.
Context `{Collaborators} {S : Type} `{InputStream S} `{Assets}.
Implicit Types (self : Game.t S) (frame : Frame) (player : Entity.t)
  (controls : gmap string Z).

Lemma lane_left player :
  in_lane player ->
  in_lane (if Qle_bool 0 (Entity.x player - inject_Z Game.PLAYER_LANE_OFFSET)
           then Entity.set_x player (Entity.x player - inject_Z Game.PLAYER_LANE_OFFSET)
           else player).
Proof.
  intros Hlane.
  destruct (Qle_bool 0 _) eqn:Hroom; [|exact Hlane].
  apply Qle_bool_iff in Hroom. unfold in_lane in *.
  change (Entity.x (Entity.set_x player ?v)) with v.
  destruct Hlane as [Hx | [Hx | Hx]]; rewrite Hx in *.
  - exfalso. revert Hroom. vm_compute. auto.
  - left. reflexivity.
  - right; left. reflexivity.
Qed.

Lemma lane_right player :
  in_lane player ->
  in_lane (if Qle_bool (Entity.x player + inject_Z Game.PLAYER_LANE_OFFSET)
                (inject_Z Game.WIDTH)
           then Entity.set_x player (Entity.x player + inject_Z Game.PLAYER_LANE_OFFSET)
           else player).
Proof.
  intros Hlane.
  destruct (Qle_bool _ _) eqn:Hroom; [|exact Hlane].
  apply Qle_bool_iff in Hroom. unfold in_lane in *.
  change (Entity.x (Entity.set_x player ?v)) with v.
  destruct Hlane as [Hx | [Hx | Hx]]; rewrite Hx in *.
  - right; left. reflexivity.
  - right; right. reflexivity.
  - exfalso. revert Hroom. vm_compute. auto.
Qed.

(** What [move_player] does to the controls and the player. *)
Lemma move_player_spec controls player :
  match Game.move_player controls player with
  | Running (controls', player') =>
      (keys_present controls -> keys_present controls') /\
      controls' !! CONTROL_LEFT <> Some 1 /\
      controls' !! CONTROL_RIGHT <> Some 1 /\
      controls' !! CONTROL_SHOOT = controls !! CONTROL_SHOOT /\
      Entity.y player' = Entity.y player /\
      Entity.hp player' = Entity.hp player /\
      (in_lane player -> in_lane player') /\
      (controls !! CONTROL_LEFT <> Some 1 -> controls !! CONTROL_RIGHT <> Some 1 ->
       player' = player /\ controls' = controls)
  | Exited => False
  | Raised =>
      controls !! CONTROL_LEFT = None \/ controls !! CONTROL_RIGHT = None
  end.
Proof.
  unfold Game.move_player.
  destruct (controls !! CONTROL_LEFT) as [go_left|] eqn:Hl; [|now left].
  destruct (Z.eqb_spec go_left 1) as [->|Hnl];
    rewrite ?lookup_insert_ne by done;
    (destruct (controls !! CONTROL_RIGHT) as [go_right|] eqn:Hr; [|now right]);
    destruct (Z.eqb_spec go_right 1) as [->|Hnr];
    unfold keys_present;
    rewrite ?lookup_insert_eq, ?lookup_insert_ne, ?lookup_insert_eq by done;
    rewrite ?lookup_insert_ne, ?Hl, ?Hr by done;
    split_and!; eauto; try discriminate;
    try (intros (Hkl & Hkr & Hks); split_and!; eauto);
    try (intros [= ->]; done);
    try (now repeat destruct (Qle_bool _ _));
    try (intros Hlane;
         first [ now apply lane_right, lane_left
               | now apply lane_left
               | now apply lane_right
               | exact Hlane ]);
    try (intros Hno1 Hno2; first [now destruct Hno1 | now destruct Hno2 | done]).
Qed.

Lemma move_entities_spec self delta_time s4 :
  Game.move_entities self delta_time = Running s4 ->
  Game.move_player (Game.controls self) (Game.player self)
    = Running (Game.controls s4, Game.player s4) /\
  Game.tick s4 = Game.tick self /\
  Game.spikerbox s4 = Game.spikerbox self /\
  Game.keyboard s4 = Game.keyboard self /\
  Forall (fun enemy => (Entity.y enemy <= inject_Z Game.HEIGHT)%Q) (Game.enemies s4) /\
  Forall (fun projectile => (0 <= Entity.y projectile)%Q) (Game.projectiles s4) /\
  (length (Game.enemies s4) <= length (Game.enemies self))%nat /\
  (length (Game.projectiles s4) <= length (Game.projectiles self))%nat /\
  (forall bound,
      Forall (fun enemy => bound <= Entity.hp enemy) (Game.enemies self) ->
      Forall (fun enemy => bound <= Entity.hp enemy) (Game.enemies s4)) /\
  (forall bound,
      Forall (fun projectile => bound <= Entity.hp projectile) (Game.projectiles self) ->
      Forall (fun projectile => bound <= Entity.hp projectile) (Game.projectiles s4)).
Proof.
  unfold Game.move_entities.
  destruct (Game.move_player _ _) as [[controls' player']| |]; [|discriminate..].
  intros [= <-]. cbn [Game.controls Game.player Game.tick Game.spikerbox
                      Game.keyboard Game.enemies Game.projectiles].
  split_and!; try reflexivity.
  - apply Forall_forall. intros enemy Hin.
    apply list_elem_of_filter in Hin as [Hy _]. cbv beta in *.
    apply Qle_bool_iff, Hy.
  - apply Forall_forall. intros projectile Hin.
    apply list_elem_of_filter in Hin as [Hy _]. cbv beta in *.
    apply Qle_bool_iff, Hy.
  - etransitivity; [apply length_filter|]. rewrite length_map. lia.
  - etransitivity; [apply length_filter|]. rewrite length_map. lia.
  - intros bound Hall. apply Forall_forall. intros enemy Hin.
    apply list_elem_of_filter in Hin as [_ Hin].
    apply list_elem_of_fmap in Hin as (enemy0 & -> & Hin0).
    rewrite Forall_forall in Hall. exact (Hall enemy0 Hin0).
  - intros bound Hall. apply Forall_forall. intros projectile Hin.
    apply list_elem_of_filter in Hin as [_ Hin].
    apply list_elem_of_fmap in Hin as (projectile0 & -> & Hin0).
    rewrite Forall_forall in Hall. exact (Hall projectile0 Hin0).
Qed.

End GameMoves.

Section GameCollisions.
Context `{Collaborators} {S : Type} `{InputStream S} `{Assets}.
Implicit Types (self : Game.t S) (frame : Frame) (player enemy : Entity.t)
  (controls : gmap string Z).

Lemma worn_refl (e : Entity.t) : worn e e.
Proof. unfold worn. split_and!; auto; lia. Qed.

Lemma worn_trans (a b c : Entity.t) : worn a b -> worn b c -> worn a c.
Proof.
  unfold worn. intros (-> & -> & -> & ? & ?) (? & ? & ? & ? & ?).
  split_and!; auto; lia.
Qed.

(** One point of damage through the [hp] setter. *)
Lemma worn_hit (e : Entity.t) : worn e (Entity.set_hp e (Entity.hp e - 1)).
Proof.
  unfold worn, Entity.set_hp. simpl.
  destruct (Z.leb_spec 0 (Entity.hp e - 1)); split_and!; auto; lia.
Qed.

Lemma Forall2_worn_refl (l : list Entity.t) : Forall2 worn l l.
Proof. induction l; constructor; auto using worn_refl. Qed.

Lemma Forall2_worn_trans (l k m : list Entity.t) :
  Forall2 worn l k -> Forall2 worn k m -> Forall2 worn l m.
Proof.
  intros Hlk. revert m. induction Hlk; intros m Hkm; inversion Hkm; subst;
    constructor; eauto using worn_trans.
Qed.

Lemma hit_enemy_worn projectiles :
  forall enemy,
    let '(enemy', projectiles') := Game.hit_enemy enemy projectiles in
    worn enemy enemy' /\ Forall2 worn projectiles projectiles'.
Proof.
  induction projectiles as [|projectile projectiles IH]; intros enemy.
  - simpl. split; [apply worn_refl | constructor].
  - cbn [Game.hit_enemy].
    destruct ((0 <? Entity.hp projectile) && Entity.detect_collision projectile enemy).
    + specialize (IH (Entity.set_hp enemy (Entity.hp enemy - 1))).
      destruct (Game.hit_enemy _ projectiles) as [enemy' projectiles'].
      destruct IH as [He Hp]. split.
      * eapply worn_trans; [apply worn_hit | exact He].
      * constructor; [apply worn_hit | exact Hp].
    + specialize (IH enemy).
      destruct (Game.hit_enemy _ projectiles) as [enemy' projectiles'].
      destruct IH as [He Hp]. split; [exact He|].
      constructor; [apply worn_refl | exact Hp].
Qed.

Lemma collide_spec enemies :
  forall player projectiles,
    match Game.collide player enemies projectiles with
    | Running (player', enemies', projectiles') =>
        worn player player' /\
        (0 < Entity.hp player -> 0 < Entity.hp player') /\
        Forall2 worn enemies enemies' /\
        Forall2 worn projectiles projectiles'
    | Exited => True
    | Raised => False
    end.
Proof.
  induction enemies as [|enemy enemies IH]; intros player projectiles.
  - simpl. split_and!; auto using worn_refl, Forall2_worn_refl.
  - cbn [Game.collide].
    pose proof (hit_enemy_worn projectiles enemy) as Hhit.
    destruct (Game.hit_enemy enemy projectiles) as [enemy1 projectiles1].
    destruct Hhit as [He Hp].
    destruct ((0 <? Entity.hp enemy1) && Entity.detect_collision enemy1 player)
      eqn:Htouch; cbn [andb].
    + destruct (Z.leb_spec (Entity.hp (Entity.set_hp player (Entity.hp player - 1))) 0)
        as [Hdead|Halive]; [exact I|].
      specialize (IH (Entity.set_hp player (Entity.hp player - 1)) projectiles1).
      destruct (Game.collide _ enemies projectiles1)
        as [[[player2 enemies2] projectiles2]| |]; [|exact I|exact IH].
      destruct IH as (Hpl & Hlive & Hen & Hpr). split_and!.
      * eapply worn_trans; [apply worn_hit | exact Hpl].
      * intros _. now apply Hlive.
      * constructor; [|exact Hen]. eapply worn_trans; [exact He | apply worn_hit].
      * eapply Forall2_worn_trans; [exact Hp | exact Hpr].
    + specialize (IH player projectiles1).
      destruct (Game.collide _ enemies projectiles1)
        as [[[player2 enemies2] projectiles2]| |]; [|exact I|exact IH].
      destruct IH as (Hpl & Hlive & Hen & Hpr). split_and!; auto.
      eapply Forall2_worn_trans; [exact Hp | exact Hpr].
Qed.

(** What holds of every entity by its place holds of it when worn. *)
Lemma Forall_worn (P : Q * Q -> Prop) (l l' : list Entity.t) :
  Forall2 worn l l' ->
  Forall (fun e => P (Entity.position e)) l ->
  Forall (fun e => P (Entity.position e)) l'.
Proof.
  induction 1 as [|e e' l l' He Hl IH]; intros Hall; [constructor|].
  inversion Hall; subst. constructor; [|now apply IH].
  destruct He as (_ & _ & -> & _). assumption.
Qed.

Lemma Forall_filter_of {A} (P Q' : A -> Prop) `{!forall x, Decision (Q' x)} (l : list A) :
  Forall P l -> Forall P (filter Q' l).
Proof.
  intros Hall. apply Forall_forall. intros x Hx.
  apply list_elem_of_filter in Hx as [_ Hx].
  rewrite Forall_forall in Hall. now apply Hall.
Qed.

Lemma handle_collision_spec self :
  match Game.handle_collision self with
  | Running self' =>
      Game.controls self' = Game.controls self /\
      Game.keyboard self' = Game.keyboard self /\
      Game.spikerbox self' = Game.spikerbox self /\
      worn (Game.player self) (Game.player self') /\
      (0 < Entity.hp (Game.player self) -> 0 < Entity.hp (Game.player self')) /\
      Forall (fun enemy => 0 < Entity.hp enemy) (Game.enemies self') /\
      Forall (fun projectile => 0 < Entity.hp projectile) (Game.projectiles self') /\
      (length (Game.enemies self') <= length (Game.enemies self))%nat /\
      (length (Game.projectiles self') <= length (Game.projectiles self))%nat /\
      (forall P : Q * Q -> Prop,
          Forall (fun e => P (Entity.position e)) (Game.enemies self) ->
          Forall (fun e => P (Entity.position e)) (Game.enemies self')) /\
      (forall P : Q * Q -> Prop,
          Forall (fun e => P (Entity.position e)) (Game.projectiles self) ->
          Forall (fun e => P (Entity.position e)) (Game.projectiles self'))
  | Exited => True
  | Raised => False
  end.
Proof.
  unfold Game.handle_collision.
  pose proof (collide_spec (Game.enemies self) (Game.player self)
                (Game.projectiles self)) as Hc.
  destruct (Game.collide _ _ _) as [[[player' enemies'] projectiles']| |];
    [|exact I|exact Hc].
  destruct Hc as (Hpl & Hlive & Hen & Hpr).
  cbn [Game.controls Game.keyboard Game.spikerbox Game.player Game.enemies
       Game.projectiles].
  split_and!; auto.
  - apply Forall_forall. intros e He. now apply list_elem_of_filter in He as [? _].
  - apply Forall_forall. intros e He. now apply list_elem_of_filter in He as [? _].
  - etransitivity; [apply length_filter|]. apply Forall2_length in Hen. lia.
  - etransitivity; [apply length_filter|]. apply Forall2_length in Hpr. lia.
  - intros P HP. apply Forall_filter_of. now apply (Forall_worn P _ _ Hen).
  - intros P HP. apply Forall_filter_of. now apply (Forall_worn P _ _ Hpr).
Qed.

End GameCollisions.

Section GameFrames.
Context `{Collaborators} {S : Type} `{InputStream S} `{Assets}.
Implicit Types (self : Game.t S) (frame : Frame) (player enemy : Entity.t)
  (controls : gmap string Z) (box : SpikerBox.t S).

Lemma set_controls_keys (label : string) controls :
  keys_present controls -> keys_present (SpikerBox.set_controls label controls).
Proof.
  intros (Hl & Hr & Hs). unfold keys_present.
  rewrite set_controls_left, set_controls_right, set_controls_other by done.
  split_and!; eauto.
Qed.

Lemma spikerbox_process_input_keys box controls tick :
  keys_present controls ->
  keys_present (SpikerBox.process_input box controls tick).1.1.
Proof.
  intros Hkeys.
  destruct (SpikerBox.gated (SpikerBox.buffer_timer box + tick) (SpikerBox.stream box))
    eqn:Hg.
  - now rewrite process_input_gated.
  - pose proof (process_input_open box controls tick Hg) as Hopen.
    destruct (update (SpikerBox.stream box)) as [[raw_data stream'] printed].
    cbv zeta in Hopen.
    destruct (SpikerBox.classify box _) as [label predicted].
    destruct Hopen as (shown & _ & ->). simpl. now apply set_controls_keys.
Qed.

Lemma keyboard_events_run events :
  forall self, Game.keyboard_events self events <> Raised.
Proof.
  induction events as [|event events IH]; intros self; [discriminate|].
  destruct event as [|[]|]; cbn [Game.keyboard_events]; auto; discriminate.
Qed.

Lemma spikerbox_events_run events :
  forall self, Game.spikerbox_events self events <> Raised.
Proof.
  induction events as [|event events IH]; intros self; [discriminate|].
  destruct event as [|[]|]; cbn [Game.spikerbox_events]; auto; discriminate.
Qed.

(** The controls after the input phase. *)
Lemma process_input_controls self keyboard frame :
  match Game.process_input self keyboard frame with
  | Running (s2, log) =>
      keys_present (Game.controls self) -> keys_present (Game.controls s2)
  | Exited => True
  | Raised => False
  end.
Proof.
  unfold Game.process_input, Game.process_input_keyboard, Game.process_input_spikerbox.
  destruct (if keyboard then None else Game.spikerbox self) as [box|].
  - pose proof (spikerbox_events_run (frame_events frame) self) as Hrun.
    destruct (Game.spikerbox_events self _) as [s1| |] eqn:Hev; [|exact I|done].
    apply spikerbox_events_keeps in Hev as (Hc & _).
    pose proof (spikerbox_process_input_keys box (Game.controls s1) (Game.tick s1)) as Hk.
    destruct (SpikerBox.process_input box _ _) as [[controls' box'] log'].
    simpl in *. rewrite Hc in Hk. exact Hk.
  - pose proof (keyboard_events_run (frame_events frame) self) as Hrun.
    destruct (Game.keyboard_events self _) as [s1| |] eqn:Hev; [|exact I|done].
    apply keyboard_events_keeps in Hev as (_ & _ & _ & _ & _ & Hk).
    exact Hk.
Qed.

End GameFrames.

Section GameTheorems.
Context `{Collaborators} {S : Type} `{InputStream S} `{Assets}.
Implicit Types (self : Game.t S) (frame : Frame) (player enemy : Entity.t)
  (controls : gmap string Z) (box : SpikerBox.t S).

Lemma spawn_enemy_run self frame :
  1 <= frame_lane frame <= 3 ->
  exists s1, Game.spawn_enemy self frame = Running s1.
Proof.
  intros Hlane. unfold Game.spawn_enemy. destruct (Qltb _ _); [|eauto].
  assert (Hcases : frame_lane frame = 1 \/ frame_lane frame = 2 \/ frame_lane frame = 3)
    by lia.
  destruct Hcases as [-> | [-> | ->]]; simpl; eauto.
Qed.

(** X20.  A frame ends in no [KeyError] or [IndexError]: with the three
    keys in the controls (as [__init__] puts them) and a lane between 1 and
    3 (as [random.randint(1, 3)] draws it), [Game.update] returns or exits,
    and when it returns the three keys are still there. *)
Theorem frame_never_raises self frame :
  keys_present (Game.controls self) ->
  1 <= frame_lane frame <= 3 ->
  match Game.update self frame with
  | Running (self', _) => keys_present (Game.controls self')
  | Exited => True
  | Raised => False
  end.
Proof.
  intros Hkeys Hlane. unfold Game.update.
  destruct (spawn_enemy_run (Game.set_tick self (frame_tick frame)) frame Hlane)
    as [s1 Hs1].
  rewrite Hs1. apply spawn_enemy_keeps in Hs1 as (Hc1 & _).
  change (Game.controls (Game.set_tick self _)) with (Game.controls self) in Hc1.
  pose proof (process_input_controls s1 (Game.keyboard s1) frame) as Hin.
  destruct (Game.process_input s1 _ frame) as [[s2 log]| |]; [|exact I|exact Hin].
  rewrite Hc1 in Hin. specialize (Hin Hkeys).
  unfold Game.shoot_projectile.
  destruct Hin as (Hl & Hr & [shoot Hs]). rewrite Hs.
  set (s3 := if shoot =? 1 then _ else _).
  assert (Hk3 : exists s3', s3 = Running s3' /\ keys_present (Game.controls s3')).
  { subst s3. destruct (shoot =? 1).
    - eexists. split; [reflexivity|]. unfold keys_present. simpl.
      rewrite !lookup_insert_ne, lookup_insert_eq by done. split_and!; eauto.
    - eexists. split; [reflexivity|]. unfold keys_present. eauto. }
  destruct Hk3 as (s3' & -> & Hk3).
  unfold Game.move_entities.
  pose proof (move_player_spec (Game.controls s3') (Game.player s3')) as Hmove.
  destruct (Game.move_player _ _) as [[controls' player']| |].
  - destruct Hmove as (Hk4 & _).
    match goal with |- context [Game.handle_collision ?s] =>
      pose proof (handle_collision_spec s) as Hcol;
      destruct (Game.handle_collision s) as [s5| |]; [|exact I|exact Hcol] end.
    destruct Hcol as (-> & _). simpl. now apply Hk4.
  - destruct Hmove.
  - destruct Hk3 as ([? Hl3] & [? Hr3] & _). destruct Hmove; congruence.
Qed.

(** X21.  The player stays in its three lanes: a frame that returns
    leaves a player at x = 6, 31 or 56 at one of these, and never changes
    its height on the screen; and the player is spawned at x = 31. *)
Theorem player_stays_in_lanes self frame self' log :
  Game.update self frame = Running (self', log) ->
  (in_lane (Game.player self) -> in_lane (Game.player self')) /\
  Entity.y (Game.player self') = Entity.y (Game.player self) /\
  (forall player, Entity.spawn_player = Some player -> in_lane player).
Proof.
  intros Hrun.
  apply update_phases in Hrun as (s1 & s2 & s3 & s4 & H1' & H2' & H3' & H4' & H5').
  apply spawn_enemy_keeps in H1' as (_ & Hp1 & _).
  apply process_input_keeps in H2' as (Hp2 & _).
  apply shoot_projectile_keeps in H3' as (Hp3 & _).
  apply move_entities_spec in H4' as (Hmove & _).
  pose proof (move_player_spec (Game.controls s3) (Game.player s3)) as Hspec.
  rewrite Hmove in Hspec. destruct Hspec as (_ & _ & _ & _ & Hy & _ & Hlane & _).
  pose proof (handle_collision_spec s4) as Hcol. rewrite H5' in Hcol.
  destruct Hcol as (_ & _ & _ & (_ & _ & Hpos & _) & _).
  change (Game.player (Game.set_tick self (frame_tick frame)))
    with (Game.player self) in Hp1.
  rewrite Hp3, Hp2, Hp1 in *.
  split_and!.
  - intros Hin. unfold in_lane, Entity.x in *. rewrite Hpos. now apply Hlane.
  - unfold Entity.y in *. now rewrite Hpos.
  - intros player [= <-]. right; left. reflexivity.
Qed.

(** The flags after a frame. *)
Lemma update_flags_down self frame self' log :
  Game.update self frame = Running (self', log) ->
  flags_down (Game.controls self').
Proof.
  intros Hrun.
  apply update_phases in Hrun as (s1 & s2 & s3 & s4 & _ & _ & H3' & H4' & H5').
  apply shoot_projectile_keeps in H3' as (_ & _ & _ & _ & _ & _ & _ & Hshoot & _).
  apply move_entities_spec in H4' as (Hmove & _).
  pose proof (move_player_spec (Game.controls s3) (Game.player s3)) as Hspec.
  rewrite Hmove in Hspec. destruct Hspec as (_ & Hl & Hr & Hs & _).
  pose proof (handle_collision_spec s4) as Hcol. rewrite H5' in Hcol.
  destruct Hcol as (-> & _).
  unfold flags_down. rewrite Hs. auto.
Qed.

(** The projectiles after a frame played through the [SpikerBox]. *)
Lemma spikerbox_frame_projectiles self frame box self' log :
  Game.keyboard self = false ->
  Game.spikerbox self = Some box ->
  Game.controls self !! CONTROL_SHOOT <> Some 1 ->
  Game.update self frame = Running (self', log) ->
  (length (Game.projectiles self') <= length (Game.projectiles self))%nat /\
  Game.controls self' !! CONTROL_SHOOT <> Some 1.
Proof.
  intros Hkb Hbox Hshoot Hrun.
  split; [|exact (proj2 (proj2 (update_flags_down _ _ _ _ Hrun)))].
  apply update_phases in Hrun as (s1 & s2 & s3 & s4 & H1' & H2' & H3' & H4' & H5').
  apply spawn_enemy_keeps in H1' as (Hc1 & _ & Hpr1 & Hkb1 & _ & Hbox1).
  change (Game.controls (Game.set_tick self _)) with (Game.controls self) in Hc1.
  change (Game.projectiles (Game.set_tick self _)) with (Game.projectiles self) in Hpr1.
  change (Game.keyboard (Game.set_tick self _)) with (Game.keyboard self) in Hkb1.
  change (Game.spikerbox (Game.set_tick self _)) with (Game.spikerbox self) in Hbox1.
  assert (Hshoot2 : Game.controls s2 !! CONTROL_SHOOT <> Some 1).
  { revert H2'. unfold Game.process_input, Game.process_input_spikerbox.
    rewrite Hkb1, Hkb, Hbox1, Hbox.
    destruct (Game.spikerbox_events s1 _) as [s1'| |] eqn:Hev; [|discriminate..].
    apply spikerbox_events_keeps in Hev as (Hc & _).
    pose proof (process_input_step box (Game.controls s1') (Game.tick s1')) as Hstep.
    destruct (SpikerBox.process_input box _ _) as [[controls' box'] log'].
    destruct Hstep as (_ & _ & _ & _ & _ & _ & _ & Hs).
    intros [= <- _]. simpl. rewrite Hs, Hc, Hc1. exact Hshoot. }
  pose proof (process_input_keeps _ _ _ _ _ H2') as (_ & _ & Hpr2 & _).
  apply shoot_projectile_keeps in H3' as (_ & _ & _ & _ & _ & _ & _ & _ & _ & Hpr3).
  specialize (Hpr3 Hshoot2).
  apply move_entities_spec in H4' as (_ & _ & _ & _ & _ & _ & _ & Hlen4 & _).
  pose proof (handle_collision_spec s4) as Hcol. rewrite H5' in Hcol.
  destruct Hcol as (_ & _ & _ & _ & _ & _ & _ & _ & Hlen5 & _).
  rewrite Hpr3, Hpr2, Hpr1 in Hlen4. lia.
Qed.

(** X22.  Every flag is consumed within its frame: after a frame that
    returns, none of [LEFT], [RIGHT] and [SHOOT] is 1. *)
Theorem frame_consumes_flags self frame self' log :
  Game.update self frame = Running (self', log) ->
  flags_down (Game.controls self').
Proof.
  intros Hrun.
  apply update_phases in Hrun as (s1 & s2 & s3 & s4 & _ & _ & H3' & H4' & H5').
  apply shoot_projectile_keeps in H3' as (_ & _ & _ & _ & _ & _ & _ & Hshoot & _).
  apply move_entities_spec in H4' as (Hmove & _).
  pose proof (move_player_spec (Game.controls s3) (Game.player s3)) as Hspec.
  rewrite Hmove in Hspec. destruct Hspec as (_ & Hl & Hr & Hs & _).
  pose proof (handle_collision_spec s4) as Hcol. rewrite H5' in Hcol.
  destruct Hcol as (-> & _).
  unfold flags_down. rewrite Hs. auto.
Qed.

(** X23.  The [SpikerBox] cannot shoot: in a frame played through the
    [SpikerBox] (keyboard off, a [SpikerBox] at hand) that starts with
    [SHOOT] not 1, no projectile is spawned; the frame ends with no more
    projectiles than it began with, and with [SHOOT] still not 1. *)
Theorem spikerbox_frame_never_shoots self frame box self' log :
  Game.keyboard self = false ->
  Game.spikerbox self = Some box ->
  Game.controls self !! CONTROL_SHOOT <> Some 1 ->
  Game.update self frame = Running (self', log) ->
  (length (Game.projectiles self') <= length (Game.projectiles self))%nat /\
  Game.controls self' !! CONTROL_SHOOT <> Some 1.
Proof.
  intros Hkb Hbox Hshoot Hrun.
  split; [|exact (proj2 (proj2 (update_flags_down _ _ _ _ Hrun)))].
  apply update_phases in Hrun as (s1 & s2 & s3 & s4 & H1' & H2' & H3' & H4' & H5').
  apply spawn_enemy_keeps in H1' as (Hc1 & _ & Hpr1 & Hkb1 & _ & Hbox1).
  change (Game.controls (Game.set_tick self _)) with (Game.controls self) in Hc1.
  change (Game.projectiles (Game.set_tick self _)) with (Game.projectiles self) in Hpr1.
  change (Game.keyboard (Game.set_tick self _)) with (Game.keyboard self) in Hkb1.
  change (Game.spikerbox (Game.set_tick self _)) with (Game.spikerbox self) in Hbox1.
  assert (Hshoot2 : Game.controls s2 !! CONTROL_SHOOT <> Some 1).
  { revert H2'. unfold Game.process_input, Game.process_input_spikerbox.
    rewrite Hkb1, Hkb, Hbox1, Hbox.
    destruct (Game.spikerbox_events s1 _) as [s1'| |] eqn:Hev; [|discriminate..].
    apply spikerbox_events_keeps in Hev as (Hc & _).
    pose proof (process_input_step box (Game.controls s1') (Game.tick s1')) as Hstep.
    destruct (SpikerBox.process_input box _ _) as [[controls' box'] log'].
    destruct Hstep as (_ & _ & _ & _ & _ & _ & _ & Hs).
    intros [= <- _]. simpl. rewrite Hs, Hc, Hc1. exact Hshoot. }
  pose proof (process_input_keeps _ _ _ _ _ H2') as (_ & _ & Hpr2 & _).
  apply shoot_projectile_keeps in H3' as (_ & _ & _ & _ & _ & _ & _ & _ & _ & Hpr3).
  specialize (Hpr3 Hshoot2).
  apply move_entities_spec in H4' as (_ & _ & _ & _ & _ & _ & _ & Hlen4 & _).
  pose proof (handle_collision_spec s4) as Hcol. rewrite H5' in Hcol.
  destruct Hcol as (_ & _ & _ & _ & _ & _ & _ & _ & Hlen5 & _).
  rewrite Hpr3, Hpr2, Hpr1 in Hlen4. lia.
Qed.

End GameTheorems.

Section GameBetweenReads.
Context `{Collaborators} {S : Type} `{InputStream S} `{Assets}.
Implicit Types (self : Game.t S) (frame : Frame) (player enemy : Entity.t)
  (controls : gmap string Z) (box : SpikerBox.t S).

(** X24.  Between two reads the player stands still.  In a frame played
    through the [SpikerBox] that begins with all flags down (as every frame
    leaves them) and in which [process_input] is gated, nothing is read or
    classified, the player stays where it is, no projectile is spawned and
    the flags are still down: a label moves the player once, in the frame
    that produced it. *)
Theorem player_rests_between_reads self frame box self' log :
  flags_down (Game.controls self) ->
  Game.keyboard self = false ->
  Game.spikerbox self = Some box ->
  SpikerBox.gated (SpikerBox.buffer_timer box + frame_tick frame)
    (SpikerBox.stream box) = true ->
  Game.update self frame = Running (self', log) ->
  log = [] /\
  Entity.position (Game.player self') = Entity.position (Game.player self) /\
  (length (Game.projectiles self') <= length (Game.projectiles self))%nat /\
  flags_down (Game.controls self').
Proof.
  intros (Hl & Hr & Hs) Hkb Hbox Hgated Hrun.
  pose proof (update_flags_down _ _ _ _ Hrun) as Hdown.
  pose proof (spikerbox_frame_projectiles _ _ _ _ _ Hkb Hbox Hs Hrun) as [Hlen _].
  split_and!; [| |exact Hlen|exact Hdown].
  - apply update_phases in Hrun as (s1 & s2 & _ & _ & H1' & H2' & _).
    apply spawn_enemy_keeps in H1' as (_ & _ & _ & Hkb1 & Ht1 & Hbox1).
    change (Game.keyboard (Game.set_tick self _)) with (Game.keyboard self) in Hkb1.
    change (Game.spikerbox (Game.set_tick self _)) with (Game.spikerbox self) in Hbox1.
    change (Game.tick (Game.set_tick self _)) with (frame_tick frame) in Ht1.
    revert H2'. unfold Game.process_input, Game.process_input_spikerbox.
    rewrite Hkb1, Hkb, Hbox1, Hbox.
    destruct (Game.spikerbox_events s1 _) as [s1'| |] eqn:Hev; [|discriminate..].
    apply spikerbox_events_keeps in Hev as (_ & _ & _ & _ & Ht & _).
    rewrite process_input_gated by (rewrite Ht, Ht1; exact Hgated).
    now intros [= _ <-].
  - apply update_phases in Hrun as (s1 & s2 & s3 & s4 & H1' & H2' & H3' & H4' & H5').
    apply spawn_enemy_keeps in H1' as (Hc1 & Hp1 & _ & Hkb1 & Ht1 & Hbox1).
    change (Game.controls (Game.set_tick self _)) with (Game.controls self) in Hc1.
    change (Game.player (Game.set_tick self _)) with (Game.player self) in Hp1.
    change (Game.keyboard (Game.set_tick self _)) with (Game.keyboard self) in Hkb1.
    change (Game.spikerbox (Game.set_tick self _)) with (Game.spikerbox self) in Hbox1.
    change (Game.tick (Game.set_tick self _)) with (frame_tick frame) in Ht1.
    assert (Hc2 : Game.controls s2 = Game.controls self).
    { revert H2'. unfold Game.process_input, Game.process_input_spikerbox.
      rewrite Hkb1, Hkb, Hbox1, Hbox.
      destruct (Game.spikerbox_events s1 _) as [s1'| |] eqn:Hev; [|discriminate..].
      apply spikerbox_events_keeps in Hev as (Hc & _ & _ & _ & Ht & _).
      rewrite process_input_gated by (rewrite Ht, Ht1; exact Hgated).
      intros [= <- _]. simpl. now rewrite Hc. }
    pose proof (process_input_keeps _ _ _ _ _ H2') as (Hp2 & _).
    apply shoot_projectile_keeps in H3' as (Hp3 & _ & _ & _ & _ & Hl3 & Hr3 & _).
    apply move_entities_spec in H4' as (Hmove & _).
    pose proof (move_player_spec (Game.controls s3) (Game.player s3)) as Hspec.
    rewrite Hmove in Hspec. destruct Hspec as (_ & _ & _ & _ & _ & _ & _ & Hstill).
    destruct Hstill as [Hp4 _]; [rewrite Hl3, Hc2; exact Hl | rewrite Hr3, Hc2; exact Hr |].
    pose proof (handle_collision_spec s4) as Hcol. rewrite H5' in Hcol.
    destruct Hcol as (_ & _ & _ & (_ & _ & Hpos & _) & _).
    now rewrite Hpos, Hp4, Hp3, Hp2, Hp1.
Qed.

(** X25.  After every frame that returns, the field is clean: every enemy
    left is at most at height [HEIGHT] and alive, every projectile left is
    at height 0 or more and alive, and a player that was alive still is
    (the frame exits instead when the player's health reaches 0). *)
Theorem frame_leaves_field_clean self frame self' log :
  Game.update self frame = Running (self', log) ->
  Forall (fun enemy => (Entity.y enemy <= inject_Z Game.HEIGHT)%Q /\ 0 < Entity.hp enemy)
    (Game.enemies self') /\
  Forall (fun projectile => (0 <= Entity.y projectile)%Q /\ 0 < Entity.hp projectile)
    (Game.projectiles self') /\
  (0 < Entity.hp (Game.player self) -> 0 < Entity.hp (Game.player self')).
Proof.
  intros Hrun.
  apply update_phases in Hrun as (s1 & s2 & s3 & s4 & H1' & H2' & H3' & H4' & H5').
  apply spawn_enemy_keeps in H1' as (_ & Hp1 & _).
  change (Game.player (Game.set_tick self _)) with (Game.player self) in Hp1.
  apply process_input_keeps in H2' as (Hp2 & _).
  apply shoot_projectile_keeps in H3' as (Hp3 & _).
  apply move_entities_spec in H4' as (Hmove & _ & _ & _ & Hey & Hpy & _).
  pose proof (move_player_spec (Game.controls s3) (Game.player s3)) as Hspec.
  rewrite Hmove in Hspec. destruct Hspec as (_ & _ & _ & _ & _ & Hhp & _).
  pose proof (handle_collision_spec s4) as Hcol. rewrite H5' in Hcol.
  destruct Hcol as (_ & _ & _ & _ & Hlive & Hehp & Hphp & _ & _ & Hepos & Hppos).
  split_and!.
  - apply Forall_and. split; [|exact Hehp].
    apply (Hepos (fun p => (p.2 <= inject_Z Game.HEIGHT)%Q)), Hey.
  - apply Forall_and. split; [|exact Hphp].
    apply (Hppos (fun p => (0 <= p.2)%Q)), Hpy.
  - intros Halive. apply Hlive. rewrite Hhp, Hp3, Hp2, Hp1. exact Halive.
Qed.

End GameBetweenReads.

(** ** Frames of the small game *)

Section GameExamples.
Local Existing Instance Demo.collaborators.
Local Existing Instance DemoGame.assets.

(** Run a frame to its end and name the result. *)
Ltac run_frame g frame g' log Hrun :=
  destruct (Game.update g frame) as [[g' log]| |] eqn:Hrun;
  [| vm_compute in Hrun; discriminate Hrun | vm_compute in Hrun; discriminate Hrun].

Lemma demo_game_init : Game.init false 0 (Some Demo.wav_box) = Some DemoGame.game.
Proof. reflexivity. Qed.

Lemma frame_never_raises_witness :
  match Game.update DemoGame.game DemoGame.long_frame with
  | Running (g', _) => keys_present (Game.controls g')
  | Exited => True
  | Raised => False
  end.
Proof.
  apply (frame_never_raises DemoGame.game DemoGame.long_frame).
  - unfold keys_present. split_and!; eexists; reflexivity.
  - split; discriminate.
Defined.

Lemma player_stays_in_lanes_witness :
  exists g' log,
    Game.update DemoGame.game DemoGame.long_frame = Running (g', log) /\
    in_lane (Game.player g').
Proof.
  run_frame DemoGame.game DemoGame.long_frame g' log Hrun.
  exists g', log. split; [reflexivity|].
  apply (proj1 (player_stays_in_lanes _ _ _ _ Hrun)).
  right; left. reflexivity.
Defined.

Lemma frame_consumes_flags_witness :
  exists g' log,
    Game.update DemoGame.game DemoGame.long_frame = Running (g', log) /\
    flags_down (Game.controls g').
Proof.
  run_frame DemoGame.game DemoGame.long_frame g' log Hrun.
  exists g', log. split; [reflexivity|].
  apply (frame_consumes_flags _ _ _ _ Hrun).
Defined.

Lemma spikerbox_frame_never_shoots_witness :
  exists g' log,
    Game.update DemoGame.game DemoGame.long_frame = Running (g', log) /\
    (length (Game.projectiles g') <= length (Game.projectiles DemoGame.game))%nat.
Proof.
  run_frame DemoGame.game DemoGame.long_frame g' log Hrun.
  exists g', log. split; [reflexivity|].
  assert (Hshoot : Game.controls DemoGame.game !! CONTROL_SHOOT <> Some 1)
    by discriminate.
  exact (proj1 (spikerbox_frame_never_shoots DemoGame.game _ Demo.wav_box _ _
                  eq_refl eq_refl Hshoot Hrun)).
Defined.

Lemma frame_leaves_field_clean_witness :
  exists g' log,
    Game.update DemoGame.game DemoGame.long_frame = Running (g', log) /\
    0 < Entity.hp (Game.player g').
Proof.
  run_frame DemoGame.game DemoGame.long_frame g' log Hrun.
  exists g', log. split; [reflexivity|].
  apply (proj2 (proj2 (frame_leaves_field_clean _ _ _ _ Hrun))). reflexivity.
Defined.

Lemma player_rests_between_reads_witness :
  exists g2 log,
    Game.update DemoGame.after_long_frame DemoGame.short_frame = Running (g2, log) /\
    log = [] /\
    Entity.position (Game.player g2)
      = Entity.position (Game.player DemoGame.after_long_frame).
Proof.
  run_frame DemoGame.after_long_frame DemoGame.short_frame g2 log Hrun.
  exists g2, log. split; [reflexivity|].
  assert (Hdown : flags_down (Game.controls DemoGame.after_long_frame))
    by (split_and!; discriminate).
  destruct (Game.spikerbox DemoGame.after_long_frame) as [box|] eqn:Hbox;
    [|discriminate Hbox].
  assert (Hg : SpikerBox.gated (SpikerBox.buffer_timer box
                                 + frame_tick DemoGame.short_frame)
                 (SpikerBox.stream box) = true)
    by (vm_compute in Hbox; injection Hbox as <-; reflexivity).
  destruct (player_rests_between_reads DemoGame.after_long_frame _ box _ _
              Hdown eq_refl Hbox Hg Hrun) as (Hlog & Hpos & _).
  split; [exact Hlog | exact Hpos].
Defined.

End GameExamples.

(** ** Runs of the small pipeline *)

Section MoreExamples.
Local Existing Instance Demo.collaborators.

Lemma polls_keep_witness :
  let '(controls', self', log) := SpikerBox.polls Demo.wav_box ∅ [700; 800; 10] in
  (SpikerBox.count_updates log <= 3)%nat /\
  (SpikerBox.buffer_timer self' = 0 \/
   SpikerBox.gated (SpikerBox.buffer_timer self') (SpikerBox.stream self') = true).
Proof.
  pose proof (polls_keep [700; 800; 10] Demo.wav_box ∅) as Hkeep.
  destruct (SpikerBox.polls Demo.wav_box ∅ [700; 800; 10]) as [[controls' self'] log].
  destruct Hkeep as (_ & _ & _ & _ & Hcount & _ & _ & Htimer).
  split; [exact Hcount | apply Htimer; discriminate].
Defined.

Lemma normalise_raises_iff_empty_witness :
  WaveformSnipper.normalise_signal [] = None /\
  WaveformSnipper.normalise_signal [1; 3; 2]%Q <> None.
Proof.
  split.
  - exact (proj2 (proj1 (normalise_raises_iff_empty [])) eq_refl).
  - intros Hnone.
    discriminate (proj1 (proj1 (normalise_raises_iff_empty [1; 3; 2]%Q)) Hnone).
Defined.

End MoreExamples.

(** * Timestamp files *)

Section TimestampFacts.
Import Timestamps.
Variable py_float : string -> option Q.

(** The separator of a timestamp line: a comma and a tab. *)
Local Notation "'SEP'" := (String "," (String "009" EmptyString)).

Lemma has_char_lacks (ch : ascii) (s : string) :
  has_char ch s = false <-> SnippetFiles.lacks ch s.
Proof.
  unfold SnippetFiles.lacks. induction s as [|c s IH]; simpl.
  - split; [tauto | done].
  - rewrite orb_false_iff, IH. destruct (Ascii.eqb_spec c ch); split.
    + intros [? _]. discriminate.
    + intros Hno. exfalso. apply Hno. now left.
    + intros [_ Hs] [?|?]; [done | now apply Hs].
    + intros Hno. split; [done|]. intros Hin. apply Hno. now right.
Qed.

(** Without a comma there is nothing to split. *)
Lemma split_no_comma (s : string) :
  SnippetFiles.lacks "," s -> str_split SEP s = [s].
Proof.
  unfold str_split. induction s as [|ch rest IH]; [reflexivity|].
  rewrite lacks_cons. intros [Hch Hrest].
  cbn [split_at String.prefix].
  destruct (ascii_dec "," ch) as [Heq|_]; [now destruct Hch|].
  now rewrite IH.
Qed.

(** A first part without comma, the separator, and the rest. *)
Lemma split_first_part (a b : string) :
  SnippetFiles.lacks "," a ->
  str_split SEP (a +:+ SEP +:+ b) = a :: str_split SEP b.
Proof.
  unfold str_split. induction a as [|ch rest IH].
  - intros _. change ("" +:+ SEP +:+ b) with (String "," (String "009" b)).
    assert (Hp : String.prefix SEP (String "," (String "009" b)) = true).
    { cbn [String.prefix].
      destruct (ascii_dec "," ","); [|done].
      destruct (ascii_dec "009" "009"); [|done].
      now destruct b. }
    cbn [split_at]. rewrite Hp. reflexivity.
  - rewrite lacks_cons. intros [Hch Hrest].
    change (String ch rest +:+ SEP +:+ b) with (String ch (rest +:+ SEP +:+ b)).
    cbn [split_at String.prefix].
    destruct (ascii_dec "," ch) as [Heq|_]; [now destruct Hch|].
    now rewrite IH.
Qed.

Lemma parse_line_comment (line : string) :
  has_char "#" line = true -> parse_line py_float line = Some [].
Proof. intros Hhash. unfold parse_line. now rewrite Hhash. Qed.

Lemma parse_line_entry (timestamp_id text : string) (value : Q) :
  SnippetFiles.lacks "#" timestamp_id -> SnippetFiles.lacks "," timestamp_id ->
  SnippetFiles.lacks "#" text -> SnippetFiles.lacks "," text ->
  py_float text = Some value ->
  parse_line py_float (timestamp_id +:+ SEP +:+ text) = Some [(timestamp_id, value)].
Proof.
  intros Hid1 Hid2 Ht1 Ht2 Hvalue. unfold parse_line.
  assert (Hhash : has_char "#" (timestamp_id +:+ SEP +:+ text) = false).
  { apply has_char_lacks. repeat (apply lacks_app; split); try done.
    apply lacks_cons. split; [discriminate|].
    apply lacks_cons. split; [discriminate | intros []]. }
  rewrite Hhash, split_first_part, split_no_comma by done.
  now rewrite Hvalue.
Qed.

Lemma parse_line_no_comma (line : string) :
  has_char "#" line = false -> SnippetFiles.lacks "," line ->
  parse_line py_float line = None.
Proof.
  intros Hhash Hcomma. unfold parse_line.
  now rewrite Hhash, split_no_comma.
Qed.

(** X26.  Lines holding a hash are comments: [parse_timestamps] gives the
    same result, or the same error, with them left out. *)
Theorem timestamps_ignore_comments (lines : list string) :
  parse_timestamps py_float lines
  = parse_timestamps py_float (filter (fun line => has_char "#" line = false) lines).
Proof.
  induction lines as [|line lines IH]; [reflexivity|].
  cbn [parse_timestamps]. rewrite filter_cons.
  destruct (decide (has_char "#" line = false)) as [Hno|Hyes].
  - cbn [parse_timestamps]. now rewrite IH.
  - apply not_false_is_true in Hyes. rewrite parse_line_comment by done.
    simpl. rewrite IH.
    now destruct (parse_timestamps py_float (filter _ lines)).
Qed.

(** X27.  A line without hash and without comma (an empty line, a line
    of blanks, a line with another separator) makes [parse_timestamps]
    fail, wherever it stands in the file: the unpacking of the split line
    raises [ValueError]. *)
Theorem timestamps_need_separator (before after : list string) (line : string) :
  has_char "#" line = false ->
  SnippetFiles.lacks "," line ->
  parse_timestamps py_float (before ++ line :: after) = None.
Proof.
  intros Hhash Hcomma. induction before as [|first before IH].
  - cbn [app parse_timestamps]. now rewrite parse_line_no_comma.
  - cbn [app parse_timestamps]. rewrite IH.
    now destruct (parse_line py_float first).
Qed.

(** X28.  Round trip of a timestamp file.  Lines written as
    [id + ",\t" + text], with neither hash nor comma in [id] and [text]
    and [text] readable as the float [value], are parsed back, in order, to
    the pairs [(id, value)]. *)
Theorem timestamps_round_trip (entries : list (string * string * Q)) :
  Forall (fun '(timestamp_id, text, value) =>
            SnippetFiles.lacks "#" timestamp_id /\ SnippetFiles.lacks "," timestamp_id /\
            SnippetFiles.lacks "#" text /\ SnippetFiles.lacks "," text /\
            py_float text = Some value) entries ->
  parse_timestamps py_float
    (map (fun '(timestamp_id, text, _) => timestamp_id +:+ SEP +:+ text) entries)
  = Some (map (fun '(timestamp_id, _, value) => (timestamp_id, value)) entries).
Proof.
  induction 1 as [|[[timestamp_id text] value] entries Hentry Hall IH]; [reflexivity|].
  destruct Hentry as (Hid1 & Hid2 & Ht1 & Ht2 & Hvalue).
  cbn [map parse_timestamps].
  rewrite (parse_line_entry _ _ value), IH by done. reflexivity.
Qed.

End TimestampFacts.

Lemma timestamps_need_separator_witness :
  Timestamps.parse_timestamps demo_float
    (["# id, time"; String "b" (String "," (String "009" "1.5"))] ++ "" :: ["# end"])
  = None.
Proof.
  apply (timestamps_need_separator demo_float).
  - reflexivity.
  - intros [].
Defined.

Lemma timestamps_round_trip_witness :
  Timestamps.parse_timestamps demo_float
    [String "b" (String "," (String "009" "1.5"));
     String "l" (String "," (String "009" "12"))]
  = Some [("b", 1.5%Q); ("l", 12%Q)].
Proof.
  apply (timestamps_round_trip demo_float [("b", "1.5", 1.5%Q); ("l", "12", 12%Q)]).
  repeat constructor; unfold SnippetFiles.lacks; simpl;
    intros Hin; repeat (destruct Hin as [Hin|Hin]; [discriminate Hin|]); exact Hin.
Defined.
